(** * Cargo shipping: the event-sourced Cargo aggregate

    A shallow embedding of [cargoshipping/domainmodel.py]: the value types,
    the [Cargo] aggregate and the [mutate] method of each of its three
    events, followed by the properties of the handling state machine.

    Python objects are mutated in place and an exception leaves every
    assignment made before it in effect.  The [mutate] methods are therefore
    embedded in a small monad whose computations return the object as it is
    when they stop, together with either a value or the exception raised. *)

From Stdlib Require Import String List Bool ZArith Lia.
Import ListNotations.

Local Open Scope string_scope.
Local Open Scope list_scope.
Local Open Scope Z_scope.

(** ** Value types *)

(** [class Location(Enum)]. *)
Inductive Location : Type :=
| HAMBURG | HONGKONG | NEWYORK | STOCKHOLM | TOKYO | NLRTM | USDAL | AUMEL.

(** [Location.value]: every member's value is its own name. *)
Definition value (l : Location) : string :=
  match l with
  | HAMBURG => "HAMBURG"
  | HONGKONG => "HONGKONG"
  | NEWYORK => "NEWYORK"
  | STOCKHOLM => "STOCKHOLM"
  | TOKYO => "TOKYO"
  | NLRTM => "NLRTM"
  | USDAL => "USDAL"
  | AUMEL => "AUMEL"
  end.

Definition all_locations : list Location :=
  [HAMBURG; HONGKONG; NEWYORK; STOCKHOLM; TOKYO; NLRTM; USDAL; AUMEL].

(** [Location[name]]: lookup of a member by name; [None] stands for the
    [KeyError] Python raises when no member has that name. *)
Definition Location_getitem (name : string) : option Location :=
  find (fun l => String.eqb (value l) name) all_locations.

Definition Location_eqb (a b : Location) : bool :=
  match a, b with
  | HAMBURG, HAMBURG | HONGKONG, HONGKONG | NEWYORK, NEWYORK
  | STOCKHOLM, STOCKHOLM | TOKYO, TOKYO | NLRTM, NLRTM
  | USDAL, USDAL | AUMEL, AUMEL => true
  | _, _ => false
  end.

(** [class Leg]: the three attributes are [str]. *)
Record Leg : Type := mkLeg {
  leg_origin : string;
  leg_destination : string;
  leg_voyage_number : string
}.

(** [class Itinerary]. *)
Record Itinerary : Type := mkItinerary {
  itinerary_origin : string;
  itinerary_destination : string;
  legs : list Leg
}.

(** [class HandlingActivity(Enum)]. *)
Inductive HandlingActivity : Type := RECEIVE | LOAD | UNLOAD | CLAIM.

(** [NextExpectedActivity], without its [Optional]: a pair or a triple. *)
Inductive ExpectedActivity : Type :=
| Activity2 (activity : HandlingActivity) (location : Location)
| Activity3 (activity : HandlingActivity) (location : Location)
            (voyage_number : string).

(** [datetime] values are counted in seconds on an unbounded axis; the
    upper end of Python's calendar (year 9999) is not represented. *)
Definition datetime : Type := Z.

(** [timedelta(weeks=1)]. *)
Definition one_week : Z := 7 * 24 * 3600.

(** ** The aggregate *)

(** The attributes [Cargo.__init__] declares.  The identifier and the
    version counter kept by the [AggregateRoot] base class are not part of
    this module and are left out. *)
Record Cargo : Type := mkCargo {
  origin : Location;
  destination : Location;
  arrival_deadline : datetime;
  transport_status : string;
  routing_status : string;
  is_misdirected : bool;
  estimated_time_of_arrival : option datetime;
  next_expected_activity : option ExpectedActivity;
  route : option Itinerary;
  last_known_location : option Location;
  current_voyage_number : option string
}.

(** [Cargo.new_booking], that is [Cargo.__init__]. *)
Definition new_booking (origin destination : Location)
    (arrival_deadline : datetime) : Cargo :=
  {| origin := origin;
     destination := destination;
     arrival_deadline := arrival_deadline;
     transport_status := "NOT_RECEIVED";
     routing_status := "NOT_ROUTED";
     is_misdirected := false;
     estimated_time_of_arrival := None;
     next_expected_activity := None;
     route := None;
     last_known_location := None;
     current_voyage_number := None |}.

(** Assignments to one attribute. *)
Definition with_destination (d : Location) (c : Cargo) : Cargo :=
  mkCargo (origin c) d (arrival_deadline c) (transport_status c)
    (routing_status c) (is_misdirected c) (estimated_time_of_arrival c)
    (next_expected_activity c) (route c) (last_known_location c)
    (current_voyage_number c).

Definition with_transport_status (s : string) (c : Cargo) : Cargo :=
  mkCargo (origin c) (destination c) (arrival_deadline c) s
    (routing_status c) (is_misdirected c) (estimated_time_of_arrival c)
    (next_expected_activity c) (route c) (last_known_location c)
    (current_voyage_number c).

Definition with_routing_status (s : string) (c : Cargo) : Cargo :=
  mkCargo (origin c) (destination c) (arrival_deadline c)
    (transport_status c) s (is_misdirected c) (estimated_time_of_arrival c)
    (next_expected_activity c) (route c) (last_known_location c)
    (current_voyage_number c).

Definition with_is_misdirected (b : bool) (c : Cargo) : Cargo :=
  mkCargo (origin c) (destination c) (arrival_deadline c)
    (transport_status c) (routing_status c) b (estimated_time_of_arrival c)
    (next_expected_activity c) (route c) (last_known_location c)
    (current_voyage_number c).

Definition with_estimated_time_of_arrival (t : option datetime) (c : Cargo)
    : Cargo :=
  mkCargo (origin c) (destination c) (arrival_deadline c)
    (transport_status c) (routing_status c) (is_misdirected c) t
    (next_expected_activity c) (route c) (last_known_location c)
    (current_voyage_number c).

Definition with_next_expected_activity (a : option ExpectedActivity)
    (c : Cargo) : Cargo :=
  mkCargo (origin c) (destination c) (arrival_deadline c)
    (transport_status c) (routing_status c) (is_misdirected c)
    (estimated_time_of_arrival c) a (route c) (last_known_location c)
    (current_voyage_number c).

Definition with_route (r : option Itinerary) (c : Cargo) : Cargo :=
  mkCargo (origin c) (destination c) (arrival_deadline c)
    (transport_status c) (routing_status c) (is_misdirected c)
    (estimated_time_of_arrival c) (next_expected_activity c) r
    (last_known_location c) (current_voyage_number c).

Definition with_last_known_location (l : option Location) (c : Cargo)
    : Cargo :=
  mkCargo (origin c) (destination c) (arrival_deadline c)
    (transport_status c) (routing_status c) (is_misdirected c)
    (estimated_time_of_arrival c) (next_expected_activity c) (route c) l
    (current_voyage_number c).

Definition with_current_voyage_number (v : option string) (c : Cargo)
    : Cargo :=
  mkCargo (origin c) (destination c) (arrival_deadline c)
    (transport_status c) (routing_status c) (is_misdirected c)
    (estimated_time_of_arrival c) (next_expected_activity c) (route c)
    (last_known_location c) v.

(** ** Exceptions and the mutation monad *)

(** The exceptions a [mutate] method can raise.  [LegNotFound] is the
    [Exception("Can't find leg with origin={} and voyage_number={}")] of the
    LOAD branch.  The final [else] of the handling method
    ([Exception("Unsupported handling event: {}")]) is not reached by any
    member of [HandlingActivity] and has no counterpart here. *)
Inductive Exc : Type :=
| AssertionError | IndexError | KeyError | LegNotFound.

(** A computation on the object [obj]: it returns the object as it stands
    when the computation stops, and the value or the exception. *)
Definition Mut (A : Type) : Type := Cargo -> Cargo * (Exc + A).

Definition ret {A} (a : A) : Mut A := fun obj => (obj, inr a).

Definition raise {A} (x : Exc) : Mut A := fun obj => (obj, inl x).

Definition bind {A B} (m : Mut A) (k : A -> Mut B) : Mut B :=
  fun obj =>
    match m obj with
    | (obj', inr a) => k a obj'
    | (obj', inl x) => (obj', inl x)
    end.

Definition read {A} (f : Cargo -> A) : Mut A := fun obj => (obj, inr (f obj)).

Definition assign (f : Cargo -> Cargo) : Mut unit :=
  fun obj => (f obj, inr tt).

Definition assert (b : bool) : Mut unit :=
  if b then ret tt else raise AssertionError.

(** [xs[i]] for a non-negative [i]. *)
Definition getitem {A} (xs : list A) (i : nat) : Mut A :=
  match nth_error xs i with
  | Some x => ret x
  | None => raise IndexError
  end.

(** [Location[name]] as a computation. *)
Definition Location_lookup (name : string) : Mut Location :=
  match Location_getitem name with
  | Some l => ret l
  | None => raise KeyError
  end.

Notation "x <- m ;; k" := (bind m (fun x => k))
  (at level 61, m at next level, right associativity).
Notation "m ;; k" := (bind m (fun _ => k))
  (at level 61, right associativity).

(** ** Events *)

(** The payload of [Cargo.HandlingEventRegistered]. *)
Record HandlingEvent : Type := mkHandlingEvent {
  tracking_id : N;
  voyage_number : option string;
  location : Location;
  handling_activity : HandlingActivity
}.

(** The three events of the aggregate, each with its payload. *)
Inductive Event : Type :=
| DestinationChanged (new_destination : Location)
| RouteAssigned (new_route : Itinerary)
| HandlingEventRegistered (ev : HandlingEvent).

(** [leg.voyage_number == self.voyage_number], a [str] against an
    [Optional[str]]. *)
Definition voyage_eqb (leg_voyage : string) (v : option string) : bool :=
  match v with
  | Some s => String.eqb leg_voyage s
  | None => false
  end.

(** [DestinationChanged.mutate]. *)
Definition mutate_DestinationChanged (new_destination : Location) : Mut unit :=
  assign (with_destination new_destination).

(** [RouteAssigned.mutate]; [now] is the reading of [datetime.now()]. *)
Definition mutate_RouteAssigned (now : datetime) (new_route : Itinerary)
    : Mut unit :=
  assign (with_route (Some new_route));;
  assign (with_routing_status "ROUTED");;
  assign (with_estimated_time_of_arrival (Some (now + one_week)));;
  o <- read origin;;
  assign (with_next_expected_activity (Some (Activity2 RECEIVE o)));;
  assign (with_is_misdirected false).

(** The [for leg in obj.route.legs: ... break ... else: raise] of the LOAD
    branch.  Inside the inner [if] the event's voyage number is the string
    [v] it was just compared with. *)
Fixpoint load_loop (self : HandlingEvent) (ls : list Leg) : Mut unit :=
  match ls with
  | [] => raise LegNotFound
  | leg :: rest =>
      if String.eqb (leg_origin leg) (value (location self)) then
        match voyage_number self with
        | Some v =>
            if String.eqb (leg_voyage_number leg) v then
              d <- Location_lookup (leg_destination leg);;
              assign (with_next_expected_activity
                        (Some (Activity3 UNLOAD d v)))
            else load_loop self rest
        | None => load_loop self rest
        end
      else load_loop self rest
  end.

(** The [for i, leg in enumerate(obj.route.legs): ... break] of the UNLOAD
    branch; [all_legs] is [obj.route.legs], [ls] what is left of it from
    index [i] on.  This loop has no [else]. *)
Fixpoint unload_loop (self : HandlingEvent) (all_legs : list Leg) (i : nat)
    (ls : list Leg) : Mut unit :=
  match ls with
  | [] => ret tt
  | leg :: rest =>
      if voyage_eqb (leg_voyage_number leg) (voyage_number self) then
        next_leg <- getitem all_legs (i + 1);;
        o <- Location_lookup (leg_origin next_leg);;
        assert (Location_eqb o (location self));;
        assign (with_next_expected_activity
                  (Some (Activity3 LOAD (location self)
                           (leg_voyage_number next_leg))))
      else unload_loop self all_legs (S i) rest
  end.

(** [HandlingEventRegistered.mutate]. *)
Definition mutate_HandlingEventRegistered (self : HandlingEvent) : Mut unit :=
  r <- read route;;
  match r with
  | None => raise AssertionError
  | Some r =>
      match handling_activity self with
      | RECEIVE =>
          assign (with_transport_status "IN_PORT");;
          assign (with_last_known_location (Some (location self)));;
          leg0 <- getitem (legs r) 0;;
          assign (with_next_expected_activity
                    (Some (Activity3 LOAD (location self)
                             (leg_voyage_number leg0))))
      | LOAD =>
          assign (with_transport_status "ONBOARD_CARRIER");;
          assign (with_current_voyage_number (voyage_number self));;
          load_loop self (legs r)
      | UNLOAD =>
          assign (with_current_voyage_number None);;
          assign (with_last_known_location (Some (location self)));;
          assign (with_transport_status "IN_PORT");;
          d <- read destination;;
          if Location_eqb (location self) d then
            assign (with_next_expected_activity
                      (Some (Activity2 CLAIM (location self))))
          else if existsb (String.eqb (value (location self)))
                    (map leg_destination (legs r)) then
            unload_loop self (legs r) 0 (legs r)
          else
            assign (with_is_misdirected true);;
            assign (with_next_expected_activity None)
      | CLAIM =>
          assign (with_next_expected_activity None);;
          assign (with_transport_status "CLAIMED")
      end
  end.

(** The [mutate] method of an event, applied at clock reading [now]. *)
Definition mutate (now : datetime) (e : Event) : Mut unit :=
  match e with
  | DestinationChanged d => mutate_DestinationChanged d
  | RouteAssigned r => mutate_RouteAssigned now r
  | HandlingEventRegistered h => mutate_HandlingEventRegistered h
  end.

(** ** Replay *)

(** Modelled from the spec: replaying a log is the work of the
    [eventsourcing] library, which is not part of this repository.  As the
    specification describes it, the events are applied in order, each by its
    [mutate] method, to the freshly constructed aggregate; [clock i] is what
    [datetime.now()] returns while event number [i] is applied.  A log holds
    events whose mutation succeeded; replay stops at an exception. *)
Fixpoint replay (clock : nat -> datetime) (i : nat) (events : list Event)
    (obj : Cargo) : Exc + Cargo :=
  match events with
  | [] => inr obj
  | e :: rest =>
      match mutate (clock i) e obj with
      | (obj', inr _) => replay clock (S i) rest obj'
      | (_, inl x) => inl x
      end
  end.

Definition reconstruct (clock : nat -> datetime)
    (origin destination : Location) (arrival_deadline : datetime)
    (events : list Event) : Exc + Cargo :=
  replay clock 0 events (new_booking origin destination arrival_deadline).

(** ** The routes of [REGISTERED_ROUTES] *)

Definition route_HONGKONG_STOCKHOLM : Itinerary :=
  mkItinerary "HONGKONG" "STOCKHOLM"
    [ mkLeg "HONGKONG" "NEWYORK" "V1"; mkLeg "NEWYORK" "STOCKHOLM" "V2" ].

Definition route_TOKYO_STOCKHOLM : Itinerary :=
  mkItinerary "TOKYO" "STOCKHOLM"
    [ mkLeg "TOKYO" "HAMBURG" "V3"; mkLeg "HAMBURG" "STOCKHOLM" "V4" ].

(** A handling event with the given voyage number, location and activity. *)
Definition handling (v : option string) (l : Location) (a : HandlingActivity)
    : Event :=
  HandlingEventRegistered (mkHandlingEvent 0%N v l a).

(** The events of [test_scenario_cargo_from_hongkong_to_stockholm]. *)
Definition scenario : list Event :=
  [ RouteAssigned route_HONGKONG_STOCKHOLM;
    handling None HONGKONG RECEIVE;
    handling (Some "V1") HONGKONG LOAD;
    handling (Some "V1") TOKYO UNLOAD;
    RouteAssigned route_TOKYO_STOCKHOLM;
    handling (Some "V3") TOKYO LOAD;
    handling (Some "V3") HAMBURG UNLOAD;
    handling (Some "V4") HAMBURG LOAD;
    handling (Some "V4") STOCKHOLM UNLOAD;
    handling None STOCKHOLM CLAIM ].

(** The cargo of the test scenario, booked and then routed at time 0. *)
Definition booked : Cargo := new_booking HONGKONG STOCKHOLM 1209600.

Definition routed : Cargo :=
  fst (mutate 0 (RouteAssigned route_HONGKONG_STOCKHOLM) booked).

(** An itinerary whose only leg ends at a place that is no member of
    [Location]: the attributes of [Leg] are [str] and [assign_route] takes
    any itinerary. *)
Definition route_HONGKONG_ATLANTIS : Itinerary :=
  mkItinerary "HONGKONG" "ATLANTIS" [ mkLeg "HONGKONG" "ATLANTIS" "V7" ].

(** The booked cargo, given that itinerary at time 0. *)
Definition routed_to_ATLANTIS : Cargo :=
  fst (mutate 0 (RouteAssigned route_HONGKONG_ATLANTIS) booked).

(** The state of that cargo after a log replayed with the clock at 0;
    a log that does not replay leaves the booking as it was. *)
Definition state_after (events : list Event) : Cargo :=
  match reconstruct (fun _ => 0) HONGKONG STOCKHOLM 1209600 events with
  | inr c => c
  | inl _ => booked
  end.

(** ** Replays in which the caller keeps to a discipline *)

(** [replay] restricted to logs in which every event passes [guard] on the
    state it is applied to: [Some] of the final state when every event
    passes and succeeds, [None] otherwise.  The aggregate has no such check
    of its own; the guards below describe what a caller must ensure. *)
Fixpoint replay_where (guard : Cargo -> Event -> bool)
    (clock : nat -> datetime) (i : nat) (events : list Event) (obj : Cargo)
    : option Cargo :=
  match events with
  | [] => Some obj
  | e :: rest =>
      if guard obj e then
        match mutate (clock i) e obj with
        | (obj', inr _) => replay_where guard clock (S i) rest obj'
        | (_, inl _) => None
        end
      else None
  end.

Definition is_none {A} (o : option A) : bool :=
  match o with None => true | Some _ => false end.

(** RECEIVE and CLAIM are reported only for a cargo that is on no voyage. *)
Definition ashore_for_receive_and_claim (c : Cargo) (e : Event) : bool :=
  match e with
  | HandlingEventRegistered h =>
      match handling_activity h with
      | RECEIVE | CLAIM => is_none (current_voyage_number c)
      | LOAD | UNLOAD => true
      end
  | _ => true
  end.

(** A misdirected cargo is not received, loaded or unloaded before it has
    been given a new route. *)
Definition rerouted_before_handling (c : Cargo) (e : Event) : bool :=
  match e with
  | HandlingEventRegistered h =>
      match handling_activity h with
      | RECEIVE | LOAD | UNLOAD => negb (is_misdirected c)
      | CLAIM => true
      end
  | _ => true
  end.

(** A claimed cargo is not given a new route. *)
Definition no_route_after_claim (c : Cargo) (e : Event) : bool :=
  match e with
  | RouteAssigned _ => negb (String.eqb (transport_status c) "CLAIMED")
  | _ => true
  end.

(** Two cargo states that agree on every attribute other than
    [estimated_time_of_arrival]. *)
Definition agree_but_eta (c1 c2 : Cargo) : Prop :=
  origin c1 = origin c2
  /\ destination c1 = destination c2
  /\ arrival_deadline c1 = arrival_deadline c2
  /\ transport_status c1 = transport_status c2
  /\ routing_status c1 = routing_status c2
  /\ is_misdirected c1 = is_misdirected c2
  /\ next_expected_activity c1 = next_expected_activity c2
  /\ route c1 = route c2
  /\ last_known_location c1 = last_known_location c2
  /\ current_voyage_number c1 = current_voyage_number c2.

(** ** Pure readings of the two loops *)

(** The test of the LOAD loop on one leg. *)
Definition leg_matches (self : HandlingEvent) (leg : Leg) : bool :=
  String.eqb (leg_origin leg) (value (location self))
  && voyage_eqb (leg_voyage_number leg) (voyage_number self).

(** What the body of the UNLOAD loop does once the leg at index [i] has the
    event's voyage number. *)
Definition unload_at (self : HandlingEvent) (all_legs : list Leg) (i : nat)
    : Exc + ExpectedActivity :=
  match nth_error all_legs (i + 1) with
  | None => inl IndexError
  | Some next_leg =>
      match Location_getitem (leg_origin next_leg) with
      | None => inl KeyError
      | Some o =>
          if Location_eqb o (location self)
          then inr (Activity3 LOAD (location self) (leg_voyage_number next_leg))
          else inl AssertionError
      end
  end.

(** Position, counted from [i], of the first leg of [ls] that carries the
    event's voyage number. *)
Fixpoint first_voyage_index (self : HandlingEvent) (i : nat) (ls : list Leg)
    : option nat :=
  match ls with
  | [] => None
  | leg :: rest =>
      if voyage_eqb (leg_voyage_number leg) (voyage_number self)
      then Some i
      else first_voyage_index self (S i) rest
  end.

(** The three assignments that open the UNLOAD branch. *)
Definition unloaded (h : HandlingEvent) (c : Cargo) : Cargo :=
  with_transport_status "IN_PORT"
    (with_last_known_location (Some (location h))
       (with_current_voyage_number None c)).

(** The two assignments that open the LOAD branch. *)
Definition loaded (h : HandlingEvent) (c : Cargo) : Cargo :=
  with_current_voyage_number (voyage_number h)
    (with_transport_status "ONBOARD_CARRIER" c).

(** The two assignments that open the RECEIVE branch. *)
Definition received (h : HandlingEvent) (c : Cargo) : Cargo :=
  with_last_known_location (Some (location h))
    (with_transport_status "IN_PORT" c).

(** ** Specification-side vocabulary *)

(** The first element of a list that passes a test: it passes, and nothing
    before it does. *)
Definition first_such {A} (f : A -> bool) (l : list A) (x : A) : Prop :=
  exists before after,
    l = before ++ x :: after /\ f x = true
    /\ forall y, In y before -> f y = false.

(** A leg that a LOAD report refers to: it starts at the report's location
    and sails under the report's voyage number. *)
Definition is_leg_for (h : HandlingEvent) (leg : Leg) : Prop :=
  leg_origin leg = value (location h)
  /\ voyage_number h = Some (leg_voyage_number leg).

(** The first such leg of a list of legs. *)
Definition first_leg_for (h : HandlingEvent) (ls : list Leg) (leg : Leg)
    : Prop :=
  exists before after,
    ls = before ++ leg :: after /\ is_leg_for h leg
    /\ forall y, In y before -> ~ is_leg_for h y.

(** Legs that follow one another: each leg ends where the next one
    starts. *)
Definition contiguous (ls : list Leg) : Prop :=
  forall i a b,
    nth_error ls i = Some a -> nth_error ls (S i) = Some b ->
    leg_destination a = leg_origin b.

(** The last leg of the list, if there is one, ends at [l]. *)
Definition ends_at (ls : list Leg) (l : Location) : Prop :=
  forall leg, nth_error ls (length ls - 1) = Some leg ->
              leg_destination leg = value l.

(** ** The application *)

(** The two exceptions of [application.py]: [CargoNotFound] is
    [Exception("Cargo not found: {}")], [RoutesNotFound] is
    [Exception("Can't find routes from {} to {}")]. *)
Inductive AppExc : Type := CargoNotFound | RoutesNotFound.

(** [REGISTERED_ROUTES]: a dict from (origin, destination) to itineraries,
    in the order of the literal. *)
Definition REGISTERED_ROUTES : list ((string * string) * list Itinerary) :=
  [ (("HONGKONG", "STOCKHOLM"), [route_HONGKONG_STOCKHOLM]);
    (("TOKYO", "STOCKHOLM"), [route_TOKYO_STOCKHOLM]) ].

(** Equality of two keys of that dict. *)
Definition key_eqb (a b : string * string) : bool :=
  String.eqb (fst a) (fst b) && String.eqb (snd a) (snd b).

(** [d[k]]; [None] stands for [KeyError]. *)
Definition dict_getitem {V} (d : list ((string * string) * V))
    (k : string * string) : option V :=
  match find (fun kv => key_eqb (fst kv) k) d with
  | Some kv => Some (snd kv)
  | None => None
  end.

(** [BookingApplication.get_cargo].  The repository belongs to the
    [eventsourcing] library; here it is a parameter, a function that returns
    the aggregate stored under an identifier, if any. *)
Definition get_cargo (repository : N -> option Cargo) (tracking_id : N)
    : AppExc + Cargo :=
  match repository tracking_id with
  | None => inl CargoNotFound
  | Some cargo => inr cargo
  end.

(** [BookingApplication.request_possible_routes_for_cargo]. *)
Definition request_possible_routes_for_cargo
    (repository : N -> option Cargo) (tracking_id : N)
    : AppExc + list Itinerary :=
  match get_cargo repository tracking_id with
  | inl x => inl x
  | inr cargo =>
      let from_location :=
        value (match last_known_location cargo with
               | Some l => l
               | None => origin cargo
               end) in
      let to_location := value (destination cargo) in
      match dict_getitem REGISTERED_ROUTES (from_location, to_location) with
      | Some possible_routes => inr possible_routes
      | None => inl RoutesNotFound
      end
  end.

(** ** Journeys *)

(** A leg between two members of [Location]. *)
Record Hop : Type := mkHop {
  hop_from : Location;
  hop_to : Location;
  hop_voyage : string
}.

(** The [Leg] that stores the names of the two locations. *)
Definition leg_of (h : Hop) : Leg :=
  mkLeg (value (hop_from h)) (value (hop_to h)) (hop_voyage h).

(** Hops that lead to [dest]: there is at least one, each ends where the
    next one starts, the last one ends at [dest] and no earlier one does. *)
Fixpoint chain (dest : Location) (hops : list Hop) : Prop :=
  match hops with
  | [] => False
  | h :: rest =>
      match rest with
      | [] => hop_to h = dest
      | h' :: _ => hop_to h <> dest /\ hop_to h = hop_from h' /\ chain dest rest
      end
  end.

(** The two reports of a hop: loaded where it starts, unloaded where it
    ends. *)
Definition reports (h : Hop) : list Event :=
  [ handling (Some (hop_voyage h)) (hop_from h) LOAD;
    handling (Some (hop_voyage h)) (hop_to h) UNLOAD ].

(** The reports of a cargo that travels over [hops] and is claimed at
    [dest]. *)
Definition journey (hops : list Hop) (dest : Location) : list Event :=
  flat_map reports hops ++ [handling None dest CLAIM].

Definition HandlingActivity_eqb (a b : HandlingActivity) : bool :=
  match a, b with
  | RECEIVE, RECEIVE | LOAD, LOAD | UNLOAD, UNLOAD | CLAIM, CLAIM => true
  | _, _ => false
  end.

(** The expectation that a handling event fulfils: its activity, its
    location and, when it has one, its voyage number. *)
Definition expectation_of (h : HandlingEvent) : ExpectedActivity :=
  match voyage_number h with
  | Some v => Activity3 (handling_activity h) (location h) v
  | None => Activity2 (handling_activity h) (location h)
  end.

Definition ExpectedActivity_eqb (a b : ExpectedActivity) : bool :=
  match a, b with
  | Activity2 x l, Activity2 y m =>
      HandlingActivity_eqb x y && Location_eqb l m
  | Activity3 x l v, Activity3 y m w =>
      HandlingActivity_eqb x y && Location_eqb l m && String.eqb v w
  | _, _ => false
  end.

(** The event is the handling event that the cargo expects next. *)
Definition announced (c : Cargo) (e : Event) : bool :=
  match e, next_expected_activity c with
  | HandlingEventRegistered h, Some a =>
      ExpectedActivity_eqb a (expectation_of h)
  | _, _ => false
  end.

(** Kinds of events. *)
Definition is_handling (e : Event) : bool :=
  match e with HandlingEventRegistered _ => true | _ => false end.

Definition is_route_assigned (e : Event) : bool :=
  match e with RouteAssigned _ => true | _ => false end.

(** The cargo [c] once it has been unloaded and claimed at its
    destination. *)
Definition delivered (c : Cargo) : Cargo :=
  {| origin := origin c;
     destination := destination c;
     arrival_deadline := arrival_deadline c;
     transport_status := "CLAIMED";
     routing_status := routing_status c;
     is_misdirected := is_misdirected c;
     estimated_time_of_arrival := estimated_time_of_arrival c;
     next_expected_activity := None;
     route := route c;
     last_known_location := Some (destination c);
     current_voyage_number := None |}.

(** Where the cargo is, as [request_possible_routes_for_cargo] sees it. *)
Definition position (c : Cargo) : Location :=
  match last_known_location c with
  | Some l => l
  | None => origin c
  end.

(** ** Reading a log *)

(** The destination that the events of a log leave, starting from [d]: that
    of the last DestinationChanged, if there is one. *)
Definition last_destination (d : Location) (events : list Event) : Location :=
  fold_left (fun acc e =>
               match e with DestinationChanged d' => d' | _ => acc end)
            events d.

(** The itinerary of the last RouteAssigned of a log, starting from [r]. *)
Definition last_route (r : option Itinerary) (events : list Event)
    : option Itinerary :=
  fold_left (fun acc e =>
               match e with RouteAssigned r' => Some r' | _ => acc end)
            events r.

(** Routing status and estimate go with the route. *)
Definition routing_consistent (c : Cargo) : Prop :=
  match route c with
  | None => routing_status c = "NOT_ROUTED"
            /\ estimated_time_of_arrival c = None
  | Some _ => routing_status c = "ROUTED"
              /\ estimated_time_of_arrival c <> None
  end.

(** A cargo that some handling event has been applied to. *)
Definition handled (c : Cargo) : Prop :=
  transport_status c = "IN_PORT"
  \/ transport_status c = "ONBOARD_CARRIER"
  \/ transport_status c = "CLAIMED".

(** A cargo that no handling event has been applied to. *)
Definition unhandled (c : Cargo) : Prop :=
  transport_status c = "NOT_RECEIVED"
  /\ last_known_location c = None
  /\ current_voyage_number c = None
  /\ is_misdirected c = false.

(** The next expected activity refers to the cargo and its route: RECEIVE
    is expected at the origin, LOAD on a voyage of the route, UNLOAD where a
    leg of the route on that voyage ends, CLAIM without a voyage. *)
Definition expectation_on_route (c : Cargo) : Prop :=
  match next_expected_activity c with
  | None => True
  | Some (Activity2 a l) => (a = RECEIVE /\ l = origin c) \/ a = CLAIM
  | Some (Activity3 a l v) =>
      exists r leg,
        route c = Some r /\ In leg (legs r) /\ leg_voyage_number leg = v
        /\ (a = LOAD \/ (a = UNLOAD /\ leg_destination leg = value l))
  end.

(** ** Tactics *)

Ltac run_mutate :=
  unfold mutate, mutate_HandlingEventRegistered, mutate_RouteAssigned,
    mutate_DestinationChanged, bind, assign, read, ret, raise; simpl.

Ltac agree_tac :=
  match goal with
  | H : agree_but_eta _ _ |- _ =>
      unfold agree_but_eta in *; simpl; intuition congruence
  end.

(** ** Locations and their names *)

Lemma Location_eqb_eq (a b : Location) : Location_eqb a b = true <-> a = b.
Proof.
  split.
  - destruct a, b; simpl; intros H; try reflexivity; discriminate H.
  - intros ->. destruct b; reflexivity.
Qed.

Lemma Location_eqb_refl (a : Location) : Location_eqb a a = true.
Proof. now apply Location_eqb_eq. Qed.

Lemma Location_eqb_neq (a b : Location) : Location_eqb a b = false <-> a <> b.
Proof.
  split.
  - intros H E. apply Location_eqb_eq in E. congruence.
  - intros H. destruct (Location_eqb a b) eqn:E; trivial.
    apply Location_eqb_eq in E. contradiction.
Qed.

Lemma Location_getitem_value (l : Location) : Location_getitem (value l) = Some l.
Proof. destruct l; reflexivity. Qed.

Lemma Location_getitem_name (name : string) (l : Location) :
  Location_getitem name = Some l -> value l = name.
Proof.
  unfold Location_getitem. intros H.
  apply find_some in H. destruct H as [_ H].
  now apply String.eqb_eq in H.
Qed.

Lemma value_inj (a b : Location) : value a = value b -> a = b.
Proof.
  intros H. pose proof (Location_getitem_value a) as Ha.
  rewrite H, Location_getitem_value in Ha. congruence.
Qed.

(** ** The loops, as functions of the legs alone *)

Lemma leg_matches_true (self : HandlingEvent) (leg : Leg) :
  leg_matches self leg = true <->
  leg_origin leg = value (location self)
  /\ voyage_number self = Some (leg_voyage_number leg).
Proof.
  unfold leg_matches, voyage_eqb. rewrite andb_true_iff, String.eqb_eq.
  destruct (voyage_number self) as [v|].
  - rewrite String.eqb_eq. split; intros [H1 H2]; split; congruence.
  - split; intros [H1 H2]; discriminate.
Qed.

Lemma load_loop_find (self : HandlingEvent) (ls : list Leg) (obj : Cargo) :
  load_loop self ls obj =
  match find (leg_matches self) ls with
  | None => (obj, inl LegNotFound)
  | Some leg =>
      match Location_getitem (leg_destination leg) with
      | None => (obj, inl KeyError)
      | Some d =>
          (with_next_expected_activity
             (Some (Activity3 UNLOAD d (leg_voyage_number leg))) obj, inr tt)
      end
  end.
Proof.
  induction ls as [|leg rest IH]; simpl; [reflexivity|].
  destruct (leg_matches self leg) eqn:M.
  - apply leg_matches_true in M. destruct M as [Ho Hv].
    rewrite Ho, String.eqb_refl, Hv, String.eqb_refl.
    unfold bind, Location_lookup.
    destruct (Location_getitem (leg_destination leg)); reflexivity.
  - rewrite <- IH. unfold leg_matches, voyage_eqb in M.
    destruct (String.eqb (leg_origin leg) (value (location self)));
      [|reflexivity].
    destruct (voyage_number self) as [v|]; [|reflexivity].
    simpl in M. now rewrite M.
Qed.

Lemma unload_loop_first (self : HandlingEvent) (all_legs ls : list Leg)
    (i : nat) (obj : Cargo) :
  unload_loop self all_legs i ls obj =
  match first_voyage_index self i ls with
  | None => (obj, inr tt)
  | Some j =>
      match unload_at self all_legs j with
      | inl x => (obj, inl x)
      | inr a => (with_next_expected_activity (Some a) obj, inr tt)
      end
  end.
Proof.
  revert i. induction ls as [|leg rest IH]; intros i; simpl; [reflexivity|].
  destruct (voyage_eqb (leg_voyage_number leg) (voyage_number self));
    [|apply IH].
  unfold unload_at, bind, getitem, Location_lookup, assert.
  destruct (nth_error all_legs (i + 1)) as [next_leg|]; [|reflexivity].
  unfold ret at 1.
  destruct (Location_getitem (leg_origin next_leg)) as [o|]; [|reflexivity].
  unfold ret at 1.
  destruct (Location_eqb o (location self)); reflexivity.
Qed.

Lemma find_none_iff {A} (f : A -> bool) (l : list A) :
  find f l = None <-> forall x, In x l -> f x = false.
Proof.
  split.
  - intros H x Hx. exact (find_none f l H x Hx).
  - induction l as [|a l IH]; simpl; intros H; [reflexivity|].
    rewrite (H a (or_introl eq_refl)). apply IH.
    intros x Hx. apply H. now right.
Qed.

Lemma find_first_such {A} (f : A -> bool) (l : list A) (x : A) :
  find f l = Some x <-> first_such f l x.
Proof.
  split.
  - induction l as [|a l IH]; simpl; [discriminate|].
    destruct (f a) eqn:Fa.
    + intros [= ->]. exists [], l. simpl. repeat split; auto. contradiction.
    + intros H. destruct (IH H) as (b & t & -> & Hx & Hb).
      exists (a :: b), t. simpl. repeat split; auto.
      intros y [<-|Hy]; auto.
  - intros (b & t & -> & Hx & Hb).
    induction b as [|a b IH]; simpl.
    + now rewrite Hx.
    + rewrite (Hb a (or_introl eq_refl)). apply IH.
      intros y Hy. apply Hb. now right.
Qed.

Lemma first_leg_for_find (h : HandlingEvent) (ls : list Leg) (leg : Leg) :
  first_leg_for h ls leg <-> find (leg_matches h) ls = Some leg.
Proof.
  rewrite find_first_such. unfold first_leg_for, first_such, is_leg_for.
  split; intros (b & t & E & Hx & Hb); exists b, t; repeat split; auto.
  - now apply leg_matches_true.
  - intros y Hy. destruct (leg_matches h y) eqn:M; trivial.
    apply leg_matches_true in M. now elim (Hb y Hy).
  - now apply leg_matches_true in Hx.
  - now apply leg_matches_true in Hx.
  - intros y Hy M. apply leg_matches_true in M. rewrite (Hb y Hy) in M.
    discriminate.
Qed.

Lemma no_leg_for_find (h : HandlingEvent) (ls : list Leg) :
  (forall leg, In leg ls -> ~ is_leg_for h leg)
  <-> find (leg_matches h) ls = None.
Proof.
  rewrite find_none_iff. split; intros H leg Hl.
  - destruct (leg_matches h leg) eqn:M; trivial.
    apply leg_matches_true in M. now elim (H leg Hl).
  - intros M. apply leg_matches_true in M. rewrite (H leg Hl) in M.
    discriminate.
Qed.

Lemma destination_listed (l : Location) (ls : list Leg) :
  existsb (String.eqb (value l)) (map leg_destination ls) = true
  <-> exists leg, In leg ls /\ leg_destination leg = value l.
Proof.
  rewrite existsb_exists. split.
  - intros (s & Hs & E). apply String.eqb_eq in E. apply in_map_iff in Hs.
    destruct Hs as (leg & <- & Hl). exists leg. split; auto.
  - intros (leg & Hl & E). exists (leg_destination leg). split.
    + now apply in_map.
    + apply String.eqb_eq. auto.
Qed.

(** ** Changing the destination *)

(** C9: a DestinationChanged event with destination [d] always succeeds and
    yields the same cargo with [destination] replaced by [d]: each of the
    ten other attributes keeps its value, whatever the transport and
    routing status. *)
Theorem change_destination_only_destination (now : datetime) (c : Cargo)
    (d : Location) :
  mutate now (DestinationChanged d) c =
  ({| origin := origin c;
      destination := d;
      arrival_deadline := arrival_deadline c;
      transport_status := transport_status c;
      routing_status := routing_status c;
      is_misdirected := is_misdirected c;
      estimated_time_of_arrival := estimated_time_of_arrival c;
      next_expected_activity := next_expected_activity c;
      route := route c;
      last_known_location := last_known_location c;
      current_voyage_number := current_voyage_number c |}, inr tt).
Proof. reflexivity. Qed.

(** ** Assigning a route *)

(** C6: a RouteAssigned event with itinerary [r], applied at clock reading
    [now], always succeeds; afterwards [route] is [r], [routing_status] is
    ROUTED, [next_expected_activity] is (RECEIVE, origin of the cargo),
    [is_misdirected] is false and [estimated_time_of_arrival] is [now] plus
    one week (604800 seconds); the six other attributes keep their value. *)
Theorem assign_route_effect (now : datetime) (c : Cargo) (r : Itinerary) :
  mutate now (RouteAssigned r) c =
  ({| origin := origin c;
      destination := destination c;
      arrival_deadline := arrival_deadline c;
      transport_status := transport_status c;
      routing_status := "ROUTED";
      is_misdirected := false;
      estimated_time_of_arrival := Some (now + 604800);
      next_expected_activity := Some (Activity2 RECEIVE (origin c));
      route := Some r;
      last_known_location := last_known_location c;
      current_voyage_number := current_voyage_number c |}, inr tt).
Proof. reflexivity. Qed.

(** ** LOAD *)

(** C7, as stated, fails: the cargo booked from HONGKONG and routed over
    the one leg HONGKONG-ATLANTIS of voyage V7, given the LOAD report of
    voyage V7 at HONGKONG.  The leg has the report's origin and voyage
    number, yet the mutation fails, with KeyError at the lookup of the
    leg's destination, and the cargo still expects (RECEIVE, HONGKONG)
    instead of an UNLOAD. *)
Lemma load_to_unknown_place_fails :
  reconstruct (fun _ => 0) HONGKONG STOCKHOLM 1209600
    [RouteAssigned route_HONGKONG_ATLANTIS] = inr routed_to_ATLANTIS
  /\ route routed_to_ATLANTIS = Some route_HONGKONG_ATLANTIS
  /\ In (mkLeg "HONGKONG" "ATLANTIS" "V7") (legs route_HONGKONG_ATLANTIS)
  /\ is_leg_for (mkHandlingEvent 0 (Some "V7") HONGKONG LOAD)
       (mkLeg "HONGKONG" "ATLANTIS" "V7")
  /\ snd (mutate 0 (handling (Some "V7") HONGKONG LOAD) routed_to_ATLANTIS)
     = inl KeyError
  /\ snd (mutate 0 (handling (Some "V7") HONGKONG LOAD) routed_to_ATLANTIS)
     <> inr tt
  /\ next_expected_activity
       (fst (mutate 0 (handling (Some "V7") HONGKONG LOAD)
               routed_to_ATLANTIS))
     = Some (Activity2 RECEIVE HONGKONG).
Proof.
  repeat split; try reflexivity.
  - now left.
  - discriminate.
Qed.

(** C7, amended: on a routed cargo, a LOAD report raises LegNotFound
    exactly when no leg of the route starts at the report's location under
    the report's voyage number, and it succeeds exactly when there is such
    a leg and the destination of the first one is the name of a member of
    Location.  When there is such a leg, take the first one.  If its
    destination names the Location [d], the mutation succeeds, and
    afterwards [transport_status] is ONBOARD_CARRIER,
    [current_voyage_number] is the report's voyage number [v] and
    [next_expected_activity] is (UNLOAD, d, v).  If its destination names
    no Location, the mutation raises KeyError; [transport_status] and
    [current_voyage_number] are assigned all the same and
    [next_expected_activity] keeps its value. *)
Theorem load_finds_first_leg (now : datetime) (c : Cargo) (r : Itinerary)
    (h : HandlingEvent) :
  route c = Some r ->
  handling_activity h = LOAD ->
  let result := mutate now (HandlingEventRegistered h) c in
  (snd result = inl LegNotFound
   <-> forall leg, In leg (legs r) -> ~ is_leg_for h leg)
  /\ (forall leg d,
        first_leg_for h (legs r) leg ->
        Location_getitem (leg_destination leg) = Some d ->
        snd result = inr tt
        /\ transport_status (fst result) = "ONBOARD_CARRIER"
        /\ current_voyage_number (fst result) = voyage_number h
        /\ exists v, voyage_number h = Some v
             /\ next_expected_activity (fst result)
                = Some (Activity3 UNLOAD d v))
  /\ (forall leg,
        first_leg_for h (legs r) leg ->
        Location_getitem (leg_destination leg) = None ->
        snd result = inl KeyError
        /\ transport_status (fst result) = "ONBOARD_CARRIER"
        /\ current_voyage_number (fst result) = voyage_number h
        /\ next_expected_activity (fst result) = next_expected_activity c)
  /\ (snd result = inr tt
      <-> exists leg d,
            first_leg_for h (legs r) leg
            /\ Location_getitem (leg_destination leg) = Some d).
Proof.
  intros Hr Ha. run_mutate. rewrite Hr, Ha, load_loop_find.
  split; [|split; [|split]].
  - rewrite no_leg_for_find.
    destruct (find (leg_matches h) (legs r)) as [leg|]; simpl.
    + destruct (Location_getitem (leg_destination leg)); simpl;
        split; discriminate.
    + split; reflexivity.
  - intros leg d Hf Hd. apply first_leg_for_find in Hf. rewrite Hf, Hd.
    simpl. repeat split.
    apply find_some in Hf. destruct Hf as [_ M].
    apply leg_matches_true in M. destruct M as [_ Hv].
    exists (leg_voyage_number leg). split; [exact Hv | reflexivity].
  - intros leg Hf Hd. apply first_leg_for_find in Hf. rewrite Hf, Hd.
    simpl. repeat split.
  - destruct (find (leg_matches h) (legs r)) as [leg|] eqn:Ef.
    + destruct (Location_getitem (leg_destination leg)) as [d|] eqn:Ed;
        simpl.
      * split; [|reflexivity]. intros _. exists leg, d.
        split; [now apply first_leg_for_find | exact Ed].
      * split; [discriminate|]. intros (leg' & d & Hf & Hd).
        apply first_leg_for_find in Hf. congruence.
    + simpl. split; [discriminate|]. intros (leg' & d & Hf & Hd).
      apply first_leg_for_find in Hf. congruence.
Qed.

Lemma load_finds_first_leg_witness :
  route routed = Some route_HONGKONG_STOCKHOLM
  /\ snd (mutate 0 (handling (Some "V1") HONGKONG LOAD) routed) = inr tt
  /\ transport_status
       (fst (mutate 0 (handling (Some "V1") HONGKONG LOAD) routed))
     = "ONBOARD_CARRIER"
  /\ current_voyage_number
       (fst (mutate 0 (handling (Some "V1") HONGKONG LOAD) routed))
     = Some "V1"
  /\ exists v, Some "V1" = Some v
       /\ next_expected_activity
            (fst (mutate 0 (handling (Some "V1") HONGKONG LOAD) routed))
          = Some (Activity3 UNLOAD NEWYORK v).
Proof.
  split; [reflexivity|].
  apply (proj1 (proj2 (load_finds_first_leg 0 routed
                         route_HONGKONG_STOCKHOLM
                         (mkHandlingEvent 0 (Some "V1") HONGKONG LOAD)
                         eq_refl eq_refl))
           (mkLeg "HONGKONG" "NEWYORK" "V1") NEWYORK).
  - exists [], [mkLeg "NEWYORK" "STOCKHOLM" "V2"].
    split; [reflexivity|]. split; [split; reflexivity|].
    intros y [].
  - reflexivity.
Defined.

(** ** UNLOAD *)

(** C8: on a routed cargo, an UNLOAD report leaves [current_voyage_number]
    None, [last_known_location] the report's location and
    [transport_status] IN_PORT.  If the location is the cargo's destination,
    the mutation succeeds with [next_expected_activity] (CLAIM, location);
    if it is neither the destination nor the destination of any leg of the
    route, the mutation succeeds with [is_misdirected] true and
    [next_expected_activity] None. *)
Theorem unload_sets_status (now : datetime) (c : Cargo) (r : Itinerary)
    (h : HandlingEvent) :
  route c = Some r ->
  handling_activity h = UNLOAD ->
  let result := mutate now (HandlingEventRegistered h) c in
  current_voyage_number (fst result) = None
  /\ last_known_location (fst result) = Some (location h)
  /\ transport_status (fst result) = "IN_PORT"
  /\ (location h = destination c ->
      snd result = inr tt
      /\ next_expected_activity (fst result)
         = Some (Activity2 CLAIM (location h)))
  /\ (location h <> destination c ->
      (forall leg, In leg (legs r) -> leg_destination leg <> value (location h)) ->
      snd result = inr tt
      /\ is_misdirected (fst result) = true
      /\ next_expected_activity (fst result) = None).
Proof.
  intros Hr Ha. run_mutate. rewrite Hr, Ha.
  destruct (Location_eqb (location h) (destination c)) eqn:Ed.
  - apply Location_eqb_eq in Ed. simpl.
    repeat split; try reflexivity; contradiction.
  - apply Location_eqb_neq in Ed.
    destruct (existsb (String.eqb (value (location h)))
                (map leg_destination (legs r))) eqn:Ex.
    + rewrite unload_loop_first.
      assert (Hno : ~ forall leg, In leg (legs r) ->
                      leg_destination leg <> value (location h)).
      { apply destination_listed in Ex. destruct Ex as (leg & Hl & E).
        intros H. exact (H leg Hl E). }
      destruct (first_voyage_index h 0 (legs r)) as [j|]; simpl.
      * destruct (unload_at h (legs r) j); simpl; repeat split;
          try contradiction.
      * repeat split; try contradiction.
    + simpl. repeat split; try reflexivity; contradiction.
Qed.

Lemma unload_sets_status_witness :
  route (state_after (firstn 3 scenario)) = Some route_HONGKONG_STOCKHOLM
  /\ current_voyage_number
       (fst (mutate 0 (handling (Some "V1") TOKYO UNLOAD)
               (state_after (firstn 3 scenario)))) = None
  /\ last_known_location
       (fst (mutate 0 (handling (Some "V1") TOKYO UNLOAD)
               (state_after (firstn 3 scenario)))) = Some TOKYO
  /\ transport_status
       (fst (mutate 0 (handling (Some "V1") TOKYO UNLOAD)
               (state_after (firstn 3 scenario)))) = "IN_PORT"
  /\ is_misdirected
       (fst (mutate 0 (handling (Some "V1") TOKYO UNLOAD)
               (state_after (firstn 3 scenario)))) = true
  /\ next_expected_activity
       (fst (mutate 0 (handling (Some "V1") TOKYO UNLOAD)
               (state_after (firstn 3 scenario)))) = None.
Proof.
  split; [reflexivity|].
  destruct (unload_sets_status 0 (state_after (firstn 3 scenario))
              route_HONGKONG_STOCKHOLM
              (mkHandlingEvent 0 (Some "V1") TOKYO UNLOAD)
              eq_refl eq_refl) as (H1 & H2 & H3 & _ & H5).
  assert (Hoff : forall leg, In leg (legs route_HONGKONG_STOCKHOLM) ->
                   leg_destination leg <> value TOKYO).
  { intros leg [<- | [<- | []]]; discriminate. }
  assert (Hdest : TOKYO <> STOCKHOLM) by discriminate.
  destruct (H5 Hdest Hoff) as (_ & H6 & H7).
  exact (conj H1 (conj H2 (conj H3 (conj H6 H7)))).
Defined.

(** ** The shape of a handling mutation *)

Lemma bind_assign {B} (f : Cargo -> Cargo) (k : unit -> Mut B) (c : Cargo) :
  bind (assign f) k c = k tt (f c).
Proof. reflexivity. Qed.

Lemma bind_read {A B} (f : Cargo -> A) (k : A -> Mut B) (c : Cargo) :
  bind (read f) k c = k (f c) c.
Proof. reflexivity. Qed.

(** [HandlingEventRegistered.mutate] read as a function of the object. *)
Lemma mutate_handling (now : datetime) (h : HandlingEvent) (c : Cargo) :
  mutate now (HandlingEventRegistered h) c =
  match route c with
  | None => (c, inl AssertionError)
  | Some r =>
      match handling_activity h with
      | RECEIVE =>
          match nth_error (legs r) 0 with
          | None => (received h c, inl IndexError)
          | Some leg0 =>
              (with_next_expected_activity
                 (Some (Activity3 LOAD (location h) (leg_voyage_number leg0)))
                 (received h c), inr tt)
          end
      | LOAD =>
          match find (leg_matches h) (legs r) with
          | None => (loaded h c, inl LegNotFound)
          | Some leg =>
              match Location_getitem (leg_destination leg) with
              | None => (loaded h c, inl KeyError)
              | Some d =>
                  (with_next_expected_activity
                     (Some (Activity3 UNLOAD d (leg_voyage_number leg)))
                     (loaded h c), inr tt)
              end
          end
      | UNLOAD =>
          if Location_eqb (location h) (destination c) then
            (with_next_expected_activity
               (Some (Activity2 CLAIM (location h))) (unloaded h c), inr tt)
          else if existsb (String.eqb (value (location h)))
                    (map leg_destination (legs r)) then
            match first_voyage_index h 0 (legs r) with
            | None => (unloaded h c, inr tt)
            | Some j =>
                match unload_at h (legs r) j with
                | inl x => (unloaded h c, inl x)
                | inr a =>
                    (with_next_expected_activity (Some a) (unloaded h c),
                     inr tt)
                end
            end
          else
            (with_next_expected_activity None
               (with_is_misdirected true (unloaded h c)), inr tt)
      | CLAIM =>
          (with_transport_status "CLAIMED"
             (with_next_expected_activity None c), inr tt)
      end
  end.
Proof.
  unfold mutate, mutate_HandlingEventRegistered. rewrite bind_read.
  destruct (route c) as [r|]; [|reflexivity].
  destruct (handling_activity h); rewrite ?bind_assign.
  - unfold bind, getitem. destruct (nth_error (legs r) 0); reflexivity.
  - now rewrite load_loop_find.
  - rewrite bind_read.
    change (destination _) with (destination c).
    destruct (Location_eqb (location h) (destination c)); [reflexivity|].
    destruct (existsb _ _); [|reflexivity].
    now rewrite unload_loop_first.
  - reflexivity.
Qed.

Lemma handling_success (now : datetime) (h : HandlingEvent) (c c' : Cargo) :
  mutate now (HandlingEventRegistered h) c = (c', inr tt) ->
  match handling_activity h with
  | RECEIVE =>
      exists v, c' = with_next_expected_activity
                       (Some (Activity3 LOAD (location h) v)) (received h c)
  | LOAD =>
      exists d v, c' = with_next_expected_activity
                         (Some (Activity3 UNLOAD d v)) (loaded h c)
  | UNLOAD =>
      c' = with_next_expected_activity
             (Some (Activity2 CLAIM (location h))) (unloaded h c)
      \/ c' = unloaded h c
      \/ (exists v, c' = with_next_expected_activity
                           (Some (Activity3 LOAD (location h) v))
                           (unloaded h c))
      \/ c' = with_next_expected_activity None
                (with_is_misdirected true (unloaded h c))
  | CLAIM =>
      c' = with_transport_status "CLAIMED"
             (with_next_expected_activity None c)
  end.
Proof.
  rewrite mutate_handling. destruct (route c) as [r|]; [|discriminate].
  destruct (handling_activity h).
  - destruct (nth_error (legs r) 0) as [leg0|]; [|discriminate].
    intros [= <-]. now exists (leg_voyage_number leg0).
  - destruct (find (leg_matches h) (legs r)) as [leg|]; [|discriminate].
    destruct (Location_getitem (leg_destination leg)) as [d|];
      [|discriminate].
    intros [= <-]. now exists d, (leg_voyage_number leg).
  - destruct (Location_eqb (location h) (destination c)).
    + intros [= <-]. now left.
    + destruct (existsb _ _).
      * destruct (first_voyage_index h 0 (legs r)) as [j|].
        -- unfold unload_at.
           destruct (nth_error (legs r) (j + 1)) as [nl|]; [|discriminate].
           destruct (Location_getitem (leg_origin nl)) as [o|];
             [|discriminate].
           destruct (Location_eqb o (location h)); [|discriminate].
           intros [= <-]. right; right; left.
           now exists (leg_voyage_number nl).
        -- intros [= <-]. now right; left.
      * intros [= <-]. now right; right; right.
  - intros [= <-]. reflexivity.
Qed.

(** What a handling mutation leaves behind when it raises. *)
Lemma handling_failure (now : datetime) (h : HandlingEvent) (c c' : Cargo)
    (x : Exc) :
  mutate now (HandlingEventRegistered h) c = (c', inl x) ->
  (route c = None /\ x = AssertionError /\ c' = c)
  \/ (handling_activity h = RECEIVE /\ x = IndexError /\ c' = received h c)
  \/ (handling_activity h = LOAD /\ (x = LegNotFound \/ x = KeyError)
      /\ c' = loaded h c)
  \/ (handling_activity h = UNLOAD /\ x <> LegNotFound /\ c' = unloaded h c).
Proof.
  rewrite mutate_handling. destruct (route c) as [r|];
    [|intros [= <- <-]; now left].
  destruct (handling_activity h).
  - destruct (nth_error (legs r) 0) as [leg0|]; [discriminate|].
    intros [= <- <-]. right; left. now repeat split.
  - destruct (find (leg_matches h) (legs r)) as [leg|].
    + destruct (Location_getitem (leg_destination leg)) as [d|];
        [discriminate|].
      intros [= <- <-]. right; right; left. repeat split; auto.
    + intros [= <- <-]. right; right; left. repeat split; auto.
  - destruct (Location_eqb (location h) (destination c)); [discriminate|].
    destruct (existsb _ _); [|discriminate].
    destruct (first_voyage_index h 0 (legs r)) as [j|]; [|discriminate].
    unfold unload_at.
    destruct (nth_error (legs r) (j + 1)) as [nl|].
    + destruct (Location_getitem (leg_origin nl)) as [o|].
      * destruct (Location_eqb o (location h)); [discriminate|].
        intros [= <- <-]. right; right; right. repeat split; discriminate.
      * intros [= <- <-]. right; right; right. repeat split; discriminate.
    + intros [= <- <-]. right; right; right. repeat split; discriminate.
  - discriminate.
Qed.

(** ** Failed mutations *)

(** C1, as stated, fails: the routed cargo of the scenario, handed a LOAD
    report for voyage V9 at HONGKONG, raises LegNotFound and is left with a
    new transport status and a new current voyage number. *)
Lemma failed_load_is_partly_applied :
  reconstruct (fun _ => 0) HONGKONG STOCKHOLM 1209600
    [RouteAssigned route_HONGKONG_STOCKHOLM] = inr routed
  /\ route routed = Some route_HONGKONG_STOCKHOLM
  /\ snd (mutate 0 (handling (Some "V9") HONGKONG LOAD) routed)
     = inl LegNotFound
  /\ transport_status routed = "NOT_RECEIVED"
  /\ transport_status
       (fst (mutate 0 (handling (Some "V9") HONGKONG LOAD) routed))
     = "ONBOARD_CARRIER"
  /\ current_voyage_number routed = None
  /\ current_voyage_number
       (fst (mutate 0 (handling (Some "V9") HONGKONG LOAD) routed))
     = Some "V9".
Proof. repeat split. Qed.

(** C1, amended: when the mutation of a handling event raises, the
    attributes origin, destination, arrival_deadline, routing_status,
    is_misdirected, estimated_time_of_arrival, next_expected_activity and
    route of the object are what they were; only transport_status,
    last_known_location and current_voyage_number can have been assigned.
    When the exception is LegNotFound, the object is the former one with
    transport_status ONBOARD_CARRIER and current_voyage_number the report's
    voyage number. *)
Theorem failed_handling_frame (now : datetime) (c : Cargo)
    (h : HandlingEvent) (x : Exc) :
  snd (mutate now (HandlingEventRegistered h) c) = inl x ->
  let c' := fst (mutate now (HandlingEventRegistered h) c) in
  (origin c' = origin c
   /\ destination c' = destination c
   /\ arrival_deadline c' = arrival_deadline c
   /\ routing_status c' = routing_status c
   /\ is_misdirected c' = is_misdirected c
   /\ estimated_time_of_arrival c' = estimated_time_of_arrival c
   /\ next_expected_activity c' = next_expected_activity c
   /\ route c' = route c)
  /\ (x = LegNotFound ->
      c' = {| origin := origin c;
              destination := destination c;
              arrival_deadline := arrival_deadline c;
              transport_status := "ONBOARD_CARRIER";
              routing_status := routing_status c;
              is_misdirected := is_misdirected c;
              estimated_time_of_arrival := estimated_time_of_arrival c;
              next_expected_activity := next_expected_activity c;
              route := route c;
              last_known_location := last_known_location c;
              current_voyage_number := voyage_number h |}).
Proof.
  destruct (mutate now (HandlingEventRegistered h) c) as [c1 out] eqn:E.
  simpl. intros ->. apply handling_failure in E.
  destruct E as [(_ & Hx & ->) | [(_ & Hx & ->) | [(_ & Hx & ->)
                                                  | (_ & Hx & ->)]]];
    (split; [repeat split|]); intros ->;
    try discriminate Hx; try (now elim Hx); try reflexivity.
Qed.

Lemma failed_handling_frame_witness :
  snd (mutate 0 (handling (Some "V9") HONGKONG LOAD) routed)
    = inl LegNotFound
  /\ next_expected_activity
       (fst (mutate 0 (handling (Some "V9") HONGKONG LOAD) routed))
     = next_expected_activity routed.
Proof.
  split; [reflexivity|].
  apply (failed_handling_frame 0 routed
           (mkHandlingEvent 0 (Some "V9") HONGKONG LOAD) LegNotFound).
  reflexivity.
Defined.

(** ** Replay and the clock *)

(** C2, as stated, fails: the one-event log that assigns the route
    HONGKONG-STOCKHOLM, replayed once with the clock at 0 and once with the
    clock at 1, gives two estimated times of arrival. *)
Lemma replay_reads_the_clock :
  (exists c1 c2,
      reconstruct (fun _ => 0) HONGKONG STOCKHOLM 1209600
        [RouteAssigned route_HONGKONG_STOCKHOLM] = inr c1
      /\ reconstruct (fun _ => 1) HONGKONG STOCKHOLM 1209600
           [RouteAssigned route_HONGKONG_STOCKHOLM] = inr c2
      /\ estimated_time_of_arrival c1 = Some 604800
      /\ estimated_time_of_arrival c2 = Some 604801)
  /\ reconstruct (fun _ => 0) HONGKONG STOCKHOLM 1209600
       [RouteAssigned route_HONGKONG_STOCKHOLM]
     <> reconstruct (fun _ => 1) HONGKONG STOCKHOLM 1209600
          [RouteAssigned route_HONGKONG_STOCKHOLM].
Proof.
  split.
  - eexists. eexists. repeat split.
  - discriminate.
Qed.

Lemma agree_but_eta_refl (c : Cargo) : agree_but_eta c c.
Proof. unfold agree_but_eta. repeat split. Qed.

(** One event applied at two clock readings to two states that agree but
    for the estimate: same outcome, and the states still agree. *)
Lemma mutate_agree (n1 n2 : datetime) (e : Event) (c1 c2 : Cargo) :
  agree_but_eta c1 c2 ->
  snd (mutate n1 e c1) = snd (mutate n2 e c2)
  /\ agree_but_eta (fst (mutate n1 e c1)) (fst (mutate n2 e c2)).
Proof.
  intros H.
  destruct e as [d | r | h]; [split; [reflexivity | agree_tac]
                             |split; [reflexivity | agree_tac] |].
  rewrite !mutate_handling.
  assert (Hr : route c1 = route c2) by apply H.
  assert (Hd : destination c1 = destination c2) by apply H.
  rewrite Hr, Hd. destruct (route c2) as [r|];
    [|split; [reflexivity | exact H]].
  destruct (handling_activity h).
  - destruct (nth_error (legs r) 0); split; try reflexivity; agree_tac.
  - destruct (find (leg_matches h) (legs r)) as [leg|];
      [destruct (Location_getitem (leg_destination leg))|];
      split; try reflexivity; agree_tac.
  - destruct (Location_eqb (location h) (destination c2));
      [split; [reflexivity | agree_tac]|].
    destruct (existsb _ _); [|split; [reflexivity | agree_tac]].
    destruct (first_voyage_index h 0 (legs r)) as [j|];
      [destruct (unload_at h (legs r) j)|];
      split; try reflexivity; agree_tac.
  - split; [reflexivity | agree_tac].
Qed.

Lemma replay_agree (k1 k2 : nat -> datetime) (events : list Event) :
  forall (i : nat) (c1 c2 : Cargo),
    agree_but_eta c1 c2 ->
    match replay k1 i events c1, replay k2 i events c2 with
    | inr c1', inr c2' => agree_but_eta c1' c2'
    | inl x1, inl x2 => x1 = x2
    | _, _ => False
    end.
Proof.
  induction events as [|e rest IH]; intros i c1 c2 H; simpl; [exact H|].
  destruct (mutate_agree (k1 i) (k2 i) e c1 c2 H) as [Ho Hs].
  destruct (mutate (k1 i) e c1) as [c1' [x1|u1]];
    destruct (mutate (k2 i) e c2) as [c2' [x2|u2]]; simpl in *;
    try discriminate Ho.
  - congruence.
  - apply IH. exact Hs.
Qed.

(** C2, amended: two replays of the same event sequence, whatever the clock
    shows during each, either stop with the same exception or yield
    projections that are equal in every attribute other than
    estimated_time_of_arrival. *)
Theorem replay_deterministic_but_eta (k1 k2 : nat -> datetime)
    (o d : Location) (a : datetime) (events : list Event) :
  match reconstruct k1 o d a events, reconstruct k2 o d a events with
  | inr c1, inr c2 => agree_but_eta c1 c2
  | inl x1, inl x2 => x1 = x2
  | _, _ => False
  end.
Proof. apply replay_agree, agree_but_eta_refl. Qed.

(** ** Invariants of disciplined replays *)

Lemma replay_where_replay (guard : Cargo -> Event -> bool)
    (clock : nat -> datetime) (events : list Event) :
  forall (i : nat) (c c' : Cargo),
    replay_where guard clock i events c = Some c' ->
    replay clock i events c = inr c'.
Proof.
  induction events as [|e rest IH]; intros i c c'; simpl.
  - now intros [= ->].
  - destruct (guard c e); [|discriminate].
    destruct (mutate (clock i) e c) as [c1 [x|u]]; [discriminate|].
    apply IH.
Qed.

(** A property that holds of the start and that every guarded successful
    mutation preserves holds at the end of a disciplined replay. *)
Lemma replay_where_invariant (guard : Cargo -> Event -> bool)
    (P : Cargo -> Prop) :
  (forall now e c c',
      guard c e = true -> P c -> mutate now e c = (c', inr tt) -> P c') ->
  forall clock events i c c',
    P c -> replay_where guard clock i events c = Some c' -> P c'.
Proof.
  intros Hstep clock events.
  induction events as [|e rest IH]; intros i c c' Hc; simpl.
  - now intros [= <-].
  - destruct (guard c e) eqn:G; [|discriminate].
    destruct (mutate (clock i) e c) as [c1 [x|[]]] eqn:M; [discriminate|].
    apply IH. exact (Hstep _ _ _ _ G Hc M).
Qed.

(** *** Current voyage and transport status *)

(** C3, as stated, fails: book, assign the route, report LOAD of voyage V1
    at HONGKONG, then report CLAIM.  Every mutation succeeds and the cargo
    is CLAIMED with current voyage V1. *)
Lemma claim_keeps_the_voyage :
  match reconstruct (fun _ => 0) HONGKONG STOCKHOLM 1209600
          [ RouteAssigned route_HONGKONG_STOCKHOLM;
            handling (Some "V1") HONGKONG LOAD;
            handling None STOCKHOLM CLAIM ] with
  | inr c =>
      current_voyage_number c = Some "V1"
      /\ current_voyage_number c <> None
      /\ transport_status c = "CLAIMED"
      /\ transport_status c <> "ONBOARD_CARRIER"
  | inl _ => False
  end.
Proof. vm_compute. repeat split; discriminate. Qed.

(** C3, amended: in every state reached from a new booking by events of
    which each RECEIVE and each CLAIM is applied to a cargo whose current
    voyage number is None, a current voyage number other than None implies
    transport status ONBOARD_CARRIER. *)
Theorem voyage_implies_onboard (clock : nat -> datetime) (o d : Location)
    (a : datetime) (events : list Event) (c : Cargo) :
  replay_where ashore_for_receive_and_claim clock 0 events
    (new_booking o d a) = Some c ->
  current_voyage_number c <> None ->
  transport_status c = "ONBOARD_CARRIER".
Proof.
  apply (replay_where_invariant ashore_for_receive_and_claim
           (fun c => current_voyage_number c <> None ->
                     transport_status c = "ONBOARD_CARRIER")).
  - intros now e c0 c1 G Hc M. destruct e as [d0 | r | h].
    + injection M as <-. exact Hc.
    + injection M as <-. exact Hc.
    + apply handling_success in M. simpl in G.
      destruct (handling_activity h).
      * destruct M as (v & ->). simpl.
        destruct (current_voyage_number c0); [discriminate G|].
        intros N. now elim N.
      * destruct M as (d0 & v & ->). reflexivity.
      * destruct M as [-> | [-> | [(v & ->) | ->]]]; simpl;
          intros N; now elim N.
      * subst c1. simpl.
        destruct (current_voyage_number c0); [discriminate G|].
        intros N. now elim N.
  - simpl. intros N. now elim N.
Qed.

Lemma voyage_implies_onboard_witness :
  current_voyage_number (state_after (firstn 3 scenario)) = Some "V1"
  /\ transport_status (state_after (firstn 3 scenario)) = "ONBOARD_CARRIER".
Proof.
  split; [reflexivity|].
  apply (voyage_implies_onboard (fun _ => 0) HONGKONG STOCKHOLM 1209600
           (firstn 3 scenario) (state_after (firstn 3 scenario))).
  - vm_compute. reflexivity.
  - vm_compute. discriminate.
Defined.

(** *** Misdirection *)

(** C4, as stated, fails: book, assign the route, report UNLOAD at TOKYO
    (which the route never visits, so the cargo is misdirected), then
    report RECEIVE at HONGKONG.  The cargo is still misdirected and expects
    (LOAD, HONGKONG, V1). *)
Lemma receive_after_misdirection :
  match reconstruct (fun _ => 0) HONGKONG STOCKHOLM 1209600
          [ RouteAssigned route_HONGKONG_STOCKHOLM;
            handling (Some "V1") TOKYO UNLOAD;
            handling None HONGKONG RECEIVE ] with
  | inr c =>
      is_misdirected c = true
      /\ next_expected_activity c = Some (Activity3 LOAD HONGKONG "V1")
      /\ next_expected_activity c <> None
  | inl _ => False
  end.
Proof. vm_compute. repeat split; discriminate. Qed.

(** C4, amended: in every state reached from a new booking by events of
    which no RECEIVE, LOAD or UNLOAD is applied to a misdirected cargo, a
    misdirected cargo has no next expected activity: once an UNLOAD has
    set the flag, DestinationChanged and CLAIM events keep
    next_expected_activity None, until a RouteAssigned event clears the
    flag. *)
Theorem misdirected_implies_no_next_activity (clock : nat -> datetime)
    (o d : Location) (a : datetime) (events : list Event) (c : Cargo) :
  replay_where rerouted_before_handling clock 0 events
    (new_booking o d a) = Some c ->
  is_misdirected c = true ->
  next_expected_activity c = None.
Proof.
  apply (replay_where_invariant rerouted_before_handling
           (fun c => is_misdirected c = true ->
                     next_expected_activity c = None)).
  - intros now e c0 c1 G Hc M. destruct e as [d0 | r | h].
    + injection M as <-. exact Hc.
    + injection M as <-. simpl. discriminate.
    + apply handling_success in M. simpl in G.
      destruct (handling_activity h).
      * destruct M as (v & ->). simpl.
        destruct (is_misdirected c0); discriminate.
      * destruct M as (d0 & v & ->). simpl.
        destruct (is_misdirected c0); discriminate.
      * destruct M as [-> | [-> | [(v & ->) | ->]]]; simpl;
          try reflexivity; destruct (is_misdirected c0); discriminate.
      * subst c1. reflexivity.
  - simpl. discriminate.
Qed.

Lemma misdirected_implies_no_next_activity_witness :
  is_misdirected (state_after (firstn 4 scenario)) = true
  /\ next_expected_activity (state_after (firstn 4 scenario)) = None.
Proof.
  split; [reflexivity|].
  apply (misdirected_implies_no_next_activity (fun _ => 0) HONGKONG
           STOCKHOLM 1209600 (firstn 4 scenario)
           (state_after (firstn 4 scenario))).
  - vm_compute. reflexivity.
  - vm_compute. reflexivity.
Defined.

(** *** Claimed cargo *)

(** C5, as stated, fails: book, assign the route, report CLAIM, assign the
    route again.  The cargo is CLAIMED and expects (RECEIVE, HONGKONG). *)
Lemma route_assigned_after_claim :
  match reconstruct (fun _ => 0) HONGKONG STOCKHOLM 1209600
          [ RouteAssigned route_HONGKONG_STOCKHOLM;
            handling None STOCKHOLM CLAIM;
            RouteAssigned route_HONGKONG_STOCKHOLM ] with
  | inr c =>
      transport_status c = "CLAIMED"
      /\ next_expected_activity c = Some (Activity2 RECEIVE HONGKONG)
      /\ next_expected_activity c <> None
  | inl _ => False
  end.
Proof. vm_compute. repeat split; discriminate. Qed.

(** C5, amended: in every state reached from a new booking by events of
    which no RouteAssigned is applied to a CLAIMED cargo, transport status
    CLAIMED implies that next_expected_activity is None; and from any
    state whatever, a handling event (RECEIVE, LOAD, UNLOAD or CLAIM) whose
    mutation succeeds never yields a state that is CLAIMED with a next
    expected activity. *)
Theorem claimed_implies_no_next_activity (clock : nat -> datetime)
    (o d : Location) (a : datetime) (events : list Event) (c : Cargo) :
  replay_where no_route_after_claim clock 0 events (new_booking o d a)
    = Some c ->
  (transport_status c = "CLAIMED" -> next_expected_activity c = None)
  /\ (forall now h c',
        mutate now (HandlingEventRegistered h) c = (c', inr tt) ->
        transport_status c' = "CLAIMED" ->
        next_expected_activity c' = None).
Proof.
  assert (Hh : forall now h c0 c1,
             mutate now (HandlingEventRegistered h) c0 = (c1, inr tt) ->
             transport_status c1 = "CLAIMED" ->
             next_expected_activity c1 = None).
  { intros now h c0 c1 M. apply handling_success in M.
    destruct (handling_activity h).
    - destruct M as (v & ->). discriminate.
    - destruct M as (d0 & v & ->). discriminate.
    - destruct M as [-> | [-> | [(v & ->) | ->]]]; discriminate.
    - subst c1. reflexivity. }
  intros R. split; [|intros now h c'; apply Hh].
  revert R.
  apply (replay_where_invariant no_route_after_claim
           (fun c => transport_status c = "CLAIMED" ->
                     next_expected_activity c = None)).
  - intros now e c0 c1 G Hc M. destruct e as [d0 | r | h].
    + injection M as <-. exact Hc.
    + injection M as <-. simpl. simpl in G. intros E. rewrite E in G.
      discriminate G.
    + exact (Hh _ _ _ _ M).
  - simpl. discriminate.
Qed.

Lemma claimed_implies_no_next_activity_witness :
  transport_status (state_after scenario) = "CLAIMED"
  /\ next_expected_activity (state_after scenario) = None.
Proof.
  split; [reflexivity|].
  apply (claimed_implies_no_next_activity (fun _ => 0) HONGKONG
           STOCKHOLM 1209600 scenario (state_after scenario)).
  - vm_compute. reflexivity.
  - vm_compute. reflexivity.
Defined.

(** ** UNLOAD at a port of call: the following leg *)

(** C10 does not hold of the code.  The cargo booked from HONGKONG to
    STOCKHOLM and routed over NEWYORK, given an UNLOAD report at NEWYORK
    for voyage V2: NEWYORK is not the destination and is the destination of
    the first leg; the first leg with voyage V2 is the last one, and the
    access to the leg after it raises IndexError.  And on a route where
    voyage V1 covers two legs in a row, HONGKONG-NEWYORK-HAMBURG, the
    UNLOAD report at HAMBURG for V1 finds the first leg, whose successor
    starts at NEWYORK: the assertion fails. *)
Theorem unload_following_leg_failures :
  (location (mkHandlingEvent 0 (Some "V2") NEWYORK UNLOAD)
     <> destination routed
   /\ (exists leg, In leg (legs route_HONGKONG_STOCKHOLM)
                   /\ leg_destination leg = value NEWYORK)
   /\ first_voyage_index (mkHandlingEvent 0 (Some "V2") NEWYORK UNLOAD) 0
        (legs route_HONGKONG_STOCKHOLM) = Some 1%nat
   /\ length (legs route_HONGKONG_STOCKHOLM) = 2%nat
   /\ snd (mutate 0 (handling (Some "V2") NEWYORK UNLOAD) routed)
      = inl IndexError)
  /\ (let two_leg_voyage :=
        mkItinerary "HONGKONG" "STOCKHOLM"
          [ mkLeg "HONGKONG" "NEWYORK" "V1";
            mkLeg "NEWYORK" "HAMBURG" "V1";
            mkLeg "HAMBURG" "STOCKHOLM" "V2" ] in
      snd (mutate 0 (handling (Some "V1") HAMBURG UNLOAD)
             (fst (mutate 0 (RouteAssigned two_leg_voyage) booked)))
      = inl AssertionError).
Proof.
  split; [|reflexivity].
  split; [discriminate|]. split.
  - exists (mkLeg "HONGKONG" "NEWYORK" "V1"). split; [now left | reflexivity].
  - repeat split.
Qed.

(** X18: when the following leg is there.  On a route whose legs follow one
    another and end at the cargo's destination, an UNLOAD report at a port
    other than the destination, whose voyage number is first carried by the
    leg that ends at that port, finds a following leg that starts there:
    the mutation succeeds and the cargo expects to be loaded at that port
    onto the following leg's voyage. *)
Lemma unload_at_port_of_call (now : datetime) (c : Cargo) (r : Itinerary)
    (h : HandlingEvent) (j : nat) (leg : Leg) :
  route c = Some r ->
  handling_activity h = UNLOAD ->
  location h <> destination c ->
  contiguous (legs r) ->
  ends_at (legs r) (destination c) ->
  first_voyage_index h 0 (legs r) = Some j ->
  nth_error (legs r) j = Some leg ->
  leg_destination leg = value (location h) ->
  exists next,
    nth_error (legs r) (j + 1) = Some next
    /\ leg_origin next = value (location h)
    /\ mutate now (HandlingEventRegistered h) c
       = (with_next_expected_activity
            (Some (Activity3 LOAD (location h) (leg_voyage_number next)))
            (unloaded h c), inr tt).
Proof.
  intros Hr Ha Hn Hc He Hj Hleg Hd.
  assert (Hlt : (j < length (legs r))%nat)
    by (apply nth_error_Some; congruence).
  destruct (nth_error (legs r) (j + 1)) as [next|] eqn:Hnext.
  - exists next. replace (j + 1)%nat with (S j) in Hnext by lia.
    pose proof (Hc j leg next Hleg Hnext) as Ho.
    rewrite Hd in Ho. split; [reflexivity|]. split; [now symmetry|].
    rewrite mutate_handling, Hr, Ha.
    apply Location_eqb_neq in Hn. rewrite Hn.
    assert (Hex : existsb (String.eqb (value (location h)))
                    (map leg_destination (legs r)) = true).
    { apply destination_listed. exists leg. split; [|exact Hd].
      eapply nth_error_In; eauto. }
    rewrite Hex, Hj. unfold unload_at.
    replace (j + 1)%nat with (S j) by lia.
    rewrite Hnext, <- Ho, Location_getitem_value, Location_eqb_refl.
    reflexivity.
  - exfalso. apply nth_error_None in Hnext.
    assert (Hlast : j = (length (legs r) - 1)%nat) by lia.
    rewrite Hlast in Hleg. apply He in Hleg. rewrite Hd in Hleg.
    apply value_inj in Hleg. contradiction.
Qed.

(** X19: a LOAD report whose first leg ends at a name that is no Location stops
    at the lookup of that name. *)
Lemma load_unknown_destination (now : datetime) (c : Cargo) (r : Itinerary)
    (h : HandlingEvent) (leg : Leg) :
  route c = Some r ->
  handling_activity h = LOAD ->
  first_leg_for h (legs r) leg ->
  Location_getitem (leg_destination leg) = None ->
  mutate now (HandlingEventRegistered h) c = (loaded h c, inl KeyError).
Proof.
  intros Hr Ha Hf Hd. apply first_leg_for_find in Hf.
  now rewrite mutate_handling, Hr, Ha, Hf, Hd.
Qed.

(** ** Further properties of the handling method *)

(** X1: on a routed cargo a RECEIVE report sets transport status IN_PORT
    and the last known location, whatever the location and the voyage
    number of the report.  When the route has a first leg the mutation
    succeeds and the cargo expects LOAD at the report's location on the
    first leg's voyage; when the route has no leg it raises IndexError with
    the two attributes already assigned.  Nothing else changes. *)
Theorem receive_effect (now : datetime) (c : Cargo) (r : Itinerary)
    (h : HandlingEvent) :
  route c = Some r ->
  handling_activity h = RECEIVE ->
  mutate now (HandlingEventRegistered h) c =
  ({| origin := origin c;
      destination := destination c;
      arrival_deadline := arrival_deadline c;
      transport_status := "IN_PORT";
      routing_status := routing_status c;
      is_misdirected := is_misdirected c;
      estimated_time_of_arrival := estimated_time_of_arrival c;
      next_expected_activity :=
        match legs r with
        | [] => next_expected_activity c
        | leg0 :: _ =>
            Some (Activity3 LOAD (location h) (leg_voyage_number leg0))
        end;
      route := route c;
      last_known_location := Some (location h);
      current_voyage_number := current_voyage_number c |},
   match legs r with
   | [] => inl IndexError
   | _ :: _ => inr tt
   end).
Proof.
  intros Hr Ha. rewrite mutate_handling, Hr, Ha.
  destruct (legs r); simpl; rewrite <- Hr; reflexivity.
Qed.

Lemma receive_effect_witness :
  mutate 0 (handling None TOKYO RECEIVE) routed =
  ({| origin := HONGKONG;
      destination := STOCKHOLM;
      arrival_deadline := 1209600;
      transport_status := "IN_PORT";
      routing_status := "ROUTED";
      is_misdirected := false;
      estimated_time_of_arrival := Some 604800;
      next_expected_activity := Some (Activity3 LOAD TOKYO "V1");
      route := Some route_HONGKONG_STOCKHOLM;
      last_known_location := Some TOKYO;
      current_voyage_number := None |}, inr tt).
Proof.
  exact (receive_effect 0 routed route_HONGKONG_STOCKHOLM
           (mkHandlingEvent 0 None TOKYO RECEIVE) eq_refl eq_refl).
Defined.

(** X2: on a routed cargo a CLAIM report always succeeds; it sets transport
    status CLAIMED and clears the next expected activity, and keeps every
    other attribute, the current voyage number, the last known location and
    the misdirection flag included; the report's location and voyage number
    play no part. *)
Theorem claim_effect (now : datetime) (c : Cargo) (r : Itinerary)
    (h : HandlingEvent) :
  route c = Some r ->
  handling_activity h = CLAIM ->
  mutate now (HandlingEventRegistered h) c =
  ({| origin := origin c;
      destination := destination c;
      arrival_deadline := arrival_deadline c;
      transport_status := "CLAIMED";
      routing_status := routing_status c;
      is_misdirected := is_misdirected c;
      estimated_time_of_arrival := estimated_time_of_arrival c;
      next_expected_activity := None;
      route := route c;
      last_known_location := last_known_location c;
      current_voyage_number := current_voyage_number c |}, inr tt).
Proof.
  intros Hr Ha. rewrite mutate_handling, Hr, Ha, <- Hr. reflexivity.
Qed.

Lemma claim_effect_witness :
  transport_status
    (fst (mutate 0 (handling None TOKYO CLAIM)
            (state_after (firstn 3 scenario)))) = "CLAIMED"
  /\ current_voyage_number
       (fst (mutate 0 (handling None TOKYO CLAIM)
               (state_after (firstn 3 scenario)))) = Some "V1".
Proof.
  unfold handling.
  rewrite (claim_effect 0 (state_after (firstn 3 scenario))
             route_HONGKONG_STOCKHOLM
             (mkHandlingEvent 0 None TOKYO CLAIM) eq_refl eq_refl).
  split; reflexivity.
Defined.

(** X3: a handling event applied to a cargo that has no route raises
    AssertionError and leaves the object exactly as it was, whatever the
    activity. *)
Theorem handling_without_route (now : datetime) (c : Cargo)
    (h : HandlingEvent) :
  route c = None ->
  mutate now (HandlingEventRegistered h) c = (c, inl AssertionError).
Proof.
  intros Hr. now rewrite mutate_handling, Hr.
Qed.

Lemma handling_without_route_witness :
  mutate 0 (handling None HONGKONG RECEIVE) booked
  = (booked, inl AssertionError).
Proof.
  exact (handling_without_route 0 booked
           (mkHandlingEvent 0 None HONGKONG RECEIVE) eq_refl).
Defined.

Lemma first_voyage_index_none (h : HandlingEvent) (ls : list Leg) :
  forall i,
    (forall leg, In leg ls -> voyage_number h <> Some (leg_voyage_number leg))
    -> first_voyage_index h i ls = None.
Proof.
  induction ls as [|leg rest IH]; intros i H; simpl; [reflexivity|].
  destruct (voyage_eqb (leg_voyage_number leg) (voyage_number h)) eqn:E.
  - exfalso. apply (H leg (or_introl eq_refl)).
    unfold voyage_eqb in E. destruct (voyage_number h) as [v|];
      [|discriminate]. apply String.eqb_eq in E. now subst.
  - apply IH. intros l Hl. apply H. now right.
Qed.

(** X4: an UNLOAD report at a port that is not the cargo's destination but
    is the destination of some leg, with a voyage number that no leg of the
    route carries, succeeds: the loop over the legs ends without a match and
    without an error, so the next expected activity and the misdirection
    flag stay as they were, and only the three opening assignments are
    made. *)
Theorem unload_unknown_voyage (now : datetime) (c : Cargo) (r : Itinerary)
    (h : HandlingEvent) :
  route c = Some r ->
  handling_activity h = UNLOAD ->
  location h <> destination c ->
  (exists leg, In leg (legs r) /\ leg_destination leg = value (location h)) ->
  (forall leg, In leg (legs r) ->
               voyage_number h <> Some (leg_voyage_number leg)) ->
  mutate now (HandlingEventRegistered h) c =
  ({| origin := origin c;
      destination := destination c;
      arrival_deadline := arrival_deadline c;
      transport_status := "IN_PORT";
      routing_status := routing_status c;
      is_misdirected := is_misdirected c;
      estimated_time_of_arrival := estimated_time_of_arrival c;
      next_expected_activity := next_expected_activity c;
      route := route c;
      last_known_location := Some (location h);
      current_voyage_number := None |}, inr tt).
Proof.
  intros Hr Ha Hn Hex Hv. rewrite mutate_handling, Hr, Ha.
  apply Location_eqb_neq in Hn. rewrite Hn.
  apply destination_listed in Hex. rewrite Hex.
  rewrite (first_voyage_index_none h (legs r) 0 Hv), <- Hr. reflexivity.
Qed.

Lemma unload_unknown_voyage_witness :
  snd (mutate 0 (handling None NEWYORK UNLOAD)
         (state_after (firstn 3 scenario))) = inr tt
  /\ next_expected_activity
       (fst (mutate 0 (handling None NEWYORK UNLOAD)
               (state_after (firstn 3 scenario))))
     = Some (Activity3 UNLOAD NEWYORK "V1")
  /\ transport_status
       (fst (mutate 0 (handling None NEWYORK UNLOAD)
               (state_after (firstn 3 scenario)))) = "IN_PORT".
Proof.
  unfold handling.
  rewrite (unload_unknown_voyage 0 (state_after (firstn 3 scenario))
             route_HONGKONG_STOCKHOLM
             (mkHandlingEvent 0 None NEWYORK UNLOAD) eq_refl eq_refl).
  - repeat split.
  - discriminate.
  - exists (mkLeg "HONGKONG" "NEWYORK" "V1"). split; [now left | reflexivity].
  - intros leg _. discriminate.
Defined.

(** X5: a LOAD report that carries no voyage number, or that is made for a
    route without legs, raises LegNotFound; the cargo object is left with
    transport status ONBOARD_CARRIER and the report's voyage number as its
    current voyage number. *)
Theorem load_without_voyage_or_legs (now : datetime) (c : Cargo)
    (r : Itinerary) (h : HandlingEvent) :
  route c = Some r ->
  handling_activity h = LOAD ->
  voyage_number h = None \/ legs r = [] ->
  snd (mutate now (HandlingEventRegistered h) c) = inl LegNotFound
  /\ transport_status (fst (mutate now (HandlingEventRegistered h) c))
     = "ONBOARD_CARRIER"
  /\ current_voyage_number (fst (mutate now (HandlingEventRegistered h) c))
     = voyage_number h.
Proof.
  intros Hr Ha Hc. rewrite mutate_handling, Hr, Ha.
  assert (Hf : find (leg_matches h) (legs r) = None).
  { apply no_leg_for_find. intros leg Hl [_ Hv]. destruct Hc as [Hc|Hc].
    - rewrite Hc in Hv. discriminate.
    - rewrite Hc in Hl. contradiction. }
  rewrite Hf. repeat split.
Qed.

Lemma load_without_voyage_or_legs_witness :
  snd (mutate 0 (handling None HONGKONG LOAD) routed) = inl LegNotFound
  /\ transport_status (fst (mutate 0 (handling None HONGKONG LOAD) routed))
     = "ONBOARD_CARRIER"
  /\ current_voyage_number
       (fst (mutate 0 (handling None HONGKONG LOAD) routed)) = None.
Proof.
  apply (load_without_voyage_or_legs 0 routed route_HONGKONG_STOCKHOLM
           (mkHandlingEvent 0 None HONGKONG LOAD) eq_refl eq_refl).
  left. reflexivity.
Defined.

(** What no handling event assigns. *)
Lemma handling_frame (now : datetime) (c : Cargo)
    (h : HandlingEvent) :
  origin (fst (mutate now (HandlingEventRegistered h) c)) = origin c
  /\ destination (fst (mutate now (HandlingEventRegistered h) c))
     = destination c
  /\ arrival_deadline (fst (mutate now (HandlingEventRegistered h) c))
     = arrival_deadline c
  /\ routing_status (fst (mutate now (HandlingEventRegistered h) c))
     = routing_status c
  /\ estimated_time_of_arrival
       (fst (mutate now (HandlingEventRegistered h) c))
     = estimated_time_of_arrival c
  /\ route (fst (mutate now (HandlingEventRegistered h) c)) = route c.
Proof.
  rewrite mutate_handling. destruct (route c) as [r|] eqn:Hr;
    [|simpl; repeat split; assumption].
  destruct (handling_activity h).
  - destruct (nth_error (legs r) 0); simpl; repeat split; assumption.
  - destruct (find (leg_matches h) (legs r)) as [leg|];
      [destruct (Location_getitem (leg_destination leg))|];
      simpl; repeat split; assumption.
  - destruct (Location_eqb (location h) (destination c));
      [simpl; repeat split; assumption|].
    destruct (existsb _ _); [|simpl; repeat split; assumption].
    destruct (first_voyage_index h 0 (legs r)) as [j|];
      [destruct (unload_at h (legs r) j)|];
      simpl; repeat split; assumption.
  - simpl; repeat split; assumption.
Qed.

(** X6: a handling event, whether its mutation succeeds or raises, never
    changes the origin, the destination, the arrival deadline, the routing
    status, the estimated time of arrival or the route of the cargo. *)
Theorem handling_keeps_booking_and_routing (now : datetime) (c : Cargo)
    (h : HandlingEvent) :
  origin (fst (mutate now (HandlingEventRegistered h) c)) = origin c
  /\ destination (fst (mutate now (HandlingEventRegistered h) c))
     = destination c
  /\ arrival_deadline (fst (mutate now (HandlingEventRegistered h) c))
     = arrival_deadline c
  /\ routing_status (fst (mutate now (HandlingEventRegistered h) c))
     = routing_status c
  /\ estimated_time_of_arrival
       (fst (mutate now (HandlingEventRegistered h) c))
     = estimated_time_of_arrival c
  /\ route (fst (mutate now (HandlingEventRegistered h) c)) = route c.
Proof. apply handling_frame. Qed.

(** X7: the misdirection flag.  An event whose mutation succeeds turns the
    flag on only if it is an UNLOAD report at a location that is neither
    the cargo's destination nor the destination of a leg of its route; and
    it turns the flag off only if it is a RouteAssigned event. *)
Theorem misdirection_flag (now : datetime) (e : Event) (c c' : Cargo) :
  mutate now e c = (c', inr tt) ->
  (is_misdirected c = false -> is_misdirected c' = true ->
   exists h r,
     e = HandlingEventRegistered h /\ handling_activity h = UNLOAD
     /\ route c = Some r /\ location h <> destination c
     /\ forall leg, In leg (legs r) ->
                    leg_destination leg <> value (location h))
  /\ (is_misdirected c = true -> is_misdirected c' = false ->
      is_route_assigned e = true).
Proof.
  destruct e as [d | r | h].
  - intros [= <-]. simpl. split; congruence.
  - intros [= <-]. simpl. split; congruence.
  - rewrite mutate_handling. destruct (route c) as [r|] eqn:Hr;
      [|discriminate].
    destruct (handling_activity h) eqn:Ha.
    + destruct (nth_error (legs r) 0); [|discriminate].
      intros [= <-]. simpl. split; congruence.
    + destruct (find (leg_matches h) (legs r)) as [leg|]; [|discriminate].
      destruct (Location_getitem (leg_destination leg)); [|discriminate].
      intros [= <-]. simpl. split; congruence.
    + destruct (Location_eqb (location h) (destination c)) eqn:Ed.
      { intros [= <-]. simpl. split; congruence. }
      destruct (existsb (String.eqb (value (location h)))
                  (map leg_destination (legs r))) eqn:Ex.
      { destruct (first_voyage_index h 0 (legs r)) as [j|].
        - destruct (unload_at h (legs r) j); [discriminate|].
          intros [= <-]. simpl. split; congruence.
        - intros [= <-]. simpl. split; congruence. }
      intros [= <-]. simpl. split; [|congruence].
      intros _ _. exists h, r. repeat split; auto.
      * now apply Location_eqb_neq.
      * intros leg Hl E.
        assert (Hex : exists leg, In leg (legs r)
                        /\ leg_destination leg = value (location h))
          by (exists leg; auto).
        apply destination_listed in Hex. congruence.
    + intros [= <-]. simpl. split; congruence.
Qed.

Lemma misdirection_flag_witness :
  is_misdirected (state_after (firstn 3 scenario)) = false
  /\ is_misdirected (state_after (firstn 4 scenario)) = true
  /\ exists h r,
       handling (Some "V1") TOKYO UNLOAD = HandlingEventRegistered h
       /\ handling_activity h = UNLOAD
       /\ route (state_after (firstn 3 scenario)) = Some r
       /\ location h <> destination (state_after (firstn 3 scenario))
       /\ forall leg, In leg (legs r) ->
                      leg_destination leg <> value (location h).
Proof.
  split; [vm_compute; reflexivity|]. split; [vm_compute; reflexivity|].
  assert (H : mutate 0 (handling (Some "V1") TOKYO UNLOAD)
                (state_after (firstn 3 scenario))
              = (state_after (firstn 4 scenario), inr tt))
    by (vm_compute; reflexivity).
  apply (proj1 (misdirection_flag 0 (handling (Some "V1") TOKYO UNLOAD)
                  (state_after (firstn 3 scenario))
                  (state_after (firstn 4 scenario)) H));
    vm_compute; reflexivity.
Defined.

(** ** What a log determines *)

Lemma replay_invariant (P : Cargo -> Prop) :
  (forall now e c c', P c -> mutate now e c = (c', inr tt) -> P c') ->
  forall clock events i c c',
    P c -> replay clock i events c = inr c' -> P c'.
Proof.
  intros Hstep clock events.
  induction events as [|e rest IH]; intros i c c' Hc; simpl.
  - now intros [= <-].
  - destruct (mutate (clock i) e c) as [c1 [x|[]]] eqn:M; [discriminate|].
    apply IH. exact (Hstep _ _ _ _ Hc M).
Qed.

(** A successful mutation, attribute by attribute of booking and routing. *)
Lemma mutate_booking_routing (now : datetime) (e : Event) (c c' : Cargo) :
  mutate now e c = (c', inr tt) ->
  origin c' = origin c
  /\ arrival_deadline c' = arrival_deadline c
  /\ destination c'
     = match e with DestinationChanged d => d | _ => destination c end
  /\ route c'
     = match e with RouteAssigned r => Some r | _ => route c end.
Proof.
  destruct e as [d | r | h].
  - intros [= <-]. repeat split.
  - intros [= <-]. repeat split.
  - intros M. pose proof (handling_frame now c h) as F.
    rewrite M in F. simpl in F. intuition.
Qed.

Lemma replay_booking_routing (clock : nat -> datetime)
    (events : list Event) :
  forall i c c',
    replay clock i events c = inr c' ->
    origin c' = origin c
    /\ arrival_deadline c' = arrival_deadline c
    /\ destination c' = last_destination (destination c) events
    /\ route c' = last_route (route c) events.
Proof.
  induction events as [|e rest IH]; intros i c c'; simpl.
  - intros [= <-]. repeat split.
  - destruct (mutate (clock i) e c) as [c1 [x|[]]] eqn:M; [discriminate|].
    intros R. apply IH in R. apply mutate_booking_routing in M.
    destruct M as (Mo & Ma & Md & Mr). destruct R as (Ro & Ra & Rd & Rr).
    unfold last_destination, last_route in *. simpl.
    rewrite <- Md, <- Mr. repeat split; congruence.
Qed.

Lemma routing_consistent_step (now : datetime) (e : Event) (c c' : Cargo) :
  routing_consistent c -> mutate now e c = (c', inr tt) ->
  routing_consistent c'.
Proof.
  unfold routing_consistent. intros H. destruct e as [d | r | h].
  - intros [= <-]. exact H.
  - intros [= <-]. simpl. split; [reflexivity | discriminate].
  - intros M. pose proof (handling_frame now c h) as F.
    rewrite M in F. simpl in F.
    destruct F as (_ & _ & _ & Fs & Fe & Fr). now rewrite Fs, Fe, Fr.
Qed.

(** X9: what a log that replays says about booking and routing.  The
    origin and the arrival deadline are those of the booking; the
    destination is that of the last DestinationChanged event, or the
    booking's; the route is the itinerary of the last RouteAssigned event,
    or None; the routing status is ROUTED when there is such an event and
    NOT_ROUTED otherwise; and the estimated time of arrival is set exactly
    when the route is. *)
Theorem log_determines_booking_and_routing (clock : nat -> datetime)
    (o d : Location) (a : datetime) (events : list Event) (c : Cargo) :
  reconstruct clock o d a events = inr c ->
  origin c = o
  /\ arrival_deadline c = a
  /\ destination c = last_destination d events
  /\ route c = last_route None events
  /\ routing_status c
     = match last_route None events with
       | Some _ => "ROUTED"
       | None => "NOT_ROUTED"
       end
  /\ (estimated_time_of_arrival c = None <-> route c = None).
Proof.
  unfold reconstruct. intros R.
  pose proof (replay_booking_routing _ _ _ _ _ R) as (Ho & Ha & Hd & Hr).
  assert (Hc : routing_consistent c).
  { apply (replay_invariant routing_consistent routing_consistent_step
             clock events 0 (new_booking o d a) c); [|exact R].
    unfold routing_consistent. simpl. split; reflexivity. }
  simpl in Ho, Ha, Hd, Hr. rewrite <- Hr.
  unfold routing_consistent in Hc.
  destruct (route c) as [r|]; destruct Hc as [Hs He]; repeat split; auto;
    try discriminate; intros E; congruence.
Qed.

Lemma log_determines_booking_and_routing_witness :
  origin (state_after scenario) = HONGKONG
  /\ arrival_deadline (state_after scenario) = 1209600
  /\ destination (state_after scenario) = STOCKHOLM
  /\ route (state_after scenario) = Some route_TOKYO_STOCKHOLM
  /\ routing_status (state_after scenario) = "ROUTED".
Proof.
  assert (R : reconstruct (fun _ => 0) HONGKONG STOCKHOLM 1209600 scenario
              = inr (state_after scenario)) by (vm_compute; reflexivity).
  destruct (log_determines_booking_and_routing _ _ _ _ _ _ R)
    as (H1 & H2 & H3 & H4 & H5 & _).
  repeat split; assumption.
Defined.

Lemma last_route_some (events : list Event) (r : Itinerary) :
  last_route (Some r) events <> None.
Proof.
  revert r. unfold last_route.
  induction events as [|x l IH]; intros r; simpl; [discriminate|].
  destruct x; apply IH.
Qed.

Lemma replay_unrouted (clock : nat -> datetime) (events : list Event) :
  forall i c c',
    replay clock i events c = inr c' ->
    route c' = None ->
    forall e, In e events -> exists d, e = DestinationChanged d.
Proof.
  induction events as [|e rest IH]; intros i c c'; simpl.
  - intros _ _ e [].
  - destruct (mutate (clock i) e c) as [c1 [x|[]]] eqn:M; [discriminate|].
    intros R Hn. pose proof (IH _ _ _ R Hn) as Hrest.
    pose proof (replay_booking_routing _ _ _ _ _ R) as (_ & _ & _ & Hr).
    intros e' [<- | He']; [|now apply Hrest].
    destruct e as [d | r | h].
    + now exists d.
    + exfalso. injection M as <-. simpl in Hr. rewrite Hn in Hr.
      exact (last_route_some rest r (eq_sym Hr)).
    + exfalso. rewrite mutate_handling in M.
      destruct (route c) as [r|] eqn:Hrc; [|discriminate].
      pose proof (handling_frame (clock i) c h) as F.
      rewrite mutate_handling, Hrc in F.
      assert (Hc1 : route c1 = Some r).
      { destruct F as (_ & _ & _ & _ & _ & F). rewrite M in F. exact F. }
      rewrite Hc1 in Hr. rewrite Hn in Hr.
      exact (last_route_some rest r (eq_sym Hr)).
Qed.

(** X10: a cargo whose log replays and that has no route is the booking
    with, at most, another destination: every event of its log is a
    DestinationChanged event, so no handling event has been applied and
    every other attribute has the value [new_booking] gave it. *)
Theorem unrouted_cargo_is_as_booked (clock : nat -> datetime)
    (o d : Location) (a : datetime) (events : list Event) (c : Cargo) :
  reconstruct clock o d a events = inr c ->
  route c = None ->
  c = new_booking o (last_destination d events) a
  /\ forall e, In e events -> exists d', e = DestinationChanged d'.
Proof.
  unfold reconstruct. intros R Hn. split; [|exact (replay_unrouted _ _ _ _ _ R Hn)].
  pose proof (replay_booking_routing _ _ _ _ _ R) as (_ & _ & Hd & _).
  simpl in Hd. rewrite <- Hd.
  revert Hn.
  apply (replay_invariant
           (fun c => route c = None -> c = new_booking o (destination c) a)
           ) with (clock := clock) (events := events) (i := 0%nat)
                  (c := new_booking o d a); [|intros _; reflexivity|exact R].
  intros now e c0 c1 Hc M. destruct e as [d0 | r | h].
  - injection M as <-. simpl. intros Hr. rewrite (Hc Hr). reflexivity.
  - injection M as <-. simpl. discriminate.
  - rewrite mutate_handling in M. intros Hr.
    pose proof (handling_frame now c0 h) as F.
    destruct (route c0) as [r|] eqn:Hrc; [|discriminate].
    rewrite mutate_handling, Hrc, M in F. simpl in F.
    destruct F as (_ & _ & _ & _ & _ & F). congruence.
Qed.

Lemma unrouted_cargo_is_as_booked_witness :
  state_after [DestinationChanged TOKYO; DestinationChanged NEWYORK]
  = new_booking HONGKONG NEWYORK 1209600.
Proof.
  apply (unrouted_cargo_is_as_booked (fun _ => 0) HONGKONG STOCKHOLM 1209600
           [DestinationChanged TOKYO; DestinationChanged NEWYORK]
           (state_after [DestinationChanged TOKYO; DestinationChanged NEWYORK])).
  - vm_compute. reflexivity.
  - vm_compute. reflexivity.
Defined.

Lemma handling_makes_handled (now : datetime) (h : HandlingEvent)
    (c c' : Cargo) :
  mutate now (HandlingEventRegistered h) c = (c', inr tt) -> handled c'.
Proof.
  intros M. apply handling_success in M. unfold handled.
  destruct (handling_activity h).
  - destruct M as (v & ->). now left.
  - destruct M as (d & v & ->). now right; left.
  - destruct M as [-> | [-> | [(v & ->) | ->]]]; now left.
  - subst c'. now right; right.
Qed.

Lemma handled_step (now : datetime) (e : Event) (c c' : Cargo) :
  handled c -> mutate now e c = (c', inr tt) -> handled c'.
Proof.
  intros H. destruct e as [d | r | h].
  - intros [= <-]. exact H.
  - intros [= <-]. exact H.
  - apply handling_makes_handled.
Qed.

Lemma replay_handling (clock : nat -> datetime) (events : list Event) :
  forall i c c',
    replay clock i events c = inr c' ->
    if existsb is_handling events then handled c'
    else unhandled c -> unhandled c'.
Proof.
  induction events as [|e rest IH]; intros i c c'; simpl.
  - now intros [= <-].
  - destruct (mutate (clock i) e c) as [c1 [x|[]]] eqn:M; [discriminate|].
    intros R. destruct e as [d | r | h]; simpl.
    + specialize (IH _ _ _ R). injection M as <-.
      destruct (existsb is_handling rest); [exact IH|].
      intros U. apply IH. exact U.
    + specialize (IH _ _ _ R). injection M as <-.
      destruct (existsb is_handling rest); [exact IH|].
      intros U. apply IH. unfold unhandled in *. simpl. tauto.
    + apply handling_makes_handled in M.
      exact (replay_invariant handled handled_step clock rest _ _ _ M R).
Qed.

(** X11: the transport status of a cargo whose log replays is
    NOT_RECEIVED, with no last known location, no current voyage and no
    misdirection, as long as the log holds no handling event; once it holds
    one the status is IN_PORT, ONBOARD_CARRIER or CLAIMED, and it is never
    NOT_RECEIVED again. *)
Theorem transport_status_tracks_handling (clock : nat -> datetime)
    (o d : Location) (a : datetime) (events : list Event) (c : Cargo) :
  reconstruct clock o d a events = inr c ->
  if existsb is_handling events then
    transport_status c = "IN_PORT"
    \/ transport_status c = "ONBOARD_CARRIER"
    \/ transport_status c = "CLAIMED"
  else
    transport_status c = "NOT_RECEIVED"
    /\ last_known_location c = None
    /\ current_voyage_number c = None
    /\ is_misdirected c = false.
Proof.
  unfold reconstruct. intros R. apply replay_handling in R.
  destruct (existsb is_handling events); [exact R|].
  apply R. unfold unhandled. repeat split.
Qed.

Lemma transport_status_tracks_handling_witness :
  transport_status (state_after (firstn 2 scenario)) = "IN_PORT"
  \/ transport_status (state_after (firstn 2 scenario)) = "ONBOARD_CARRIER"
  \/ transport_status (state_after (firstn 2 scenario)) = "CLAIMED".
Proof.
  apply (transport_status_tracks_handling (fun _ => 0) HONGKONG STOCKHOLM
           1209600 (firstn 2 scenario) (state_after (firstn 2 scenario))).
  vm_compute. reflexivity.
Defined.

Lemma expectation_on_route_step (now : datetime) (e : Event) (c c' : Cargo) :
  expectation_on_route c -> mutate now e c = (c', inr tt) ->
  expectation_on_route c'.
Proof.
  unfold expectation_on_route. intros H. destruct e as [d | r | h].
  - intros [= <-]. exact H.
  - intros [= <-]. simpl. now left.
  - rewrite mutate_handling. destruct (route c) as [r|] eqn:Hr;
      [|discriminate].
    destruct (handling_activity h).
    + destruct (nth_error (legs r) 0) as [leg0|] eqn:E0; [|discriminate].
      intros [= <-]. simpl. exists r, leg0. repeat split; auto.
      eapply nth_error_In; eauto.
    + destruct (find (leg_matches h) (legs r)) as [leg|] eqn:Ef;
        [|discriminate].
      destruct (Location_getitem (leg_destination leg)) as [d|] eqn:Ed;
        [|discriminate].
      intros [= <-]. simpl. exists r, leg. apply find_some in Ef.
      apply Location_getitem_name in Ed. repeat split; auto; tauto.
    + destruct (Location_eqb (location h) (destination c)).
      { intros [= <-]. simpl. now right. }
      destruct (existsb _ _).
      2:{ intros [= <-]. exact I. }
      destruct (first_voyage_index h 0 (legs r)) as [j|].
      2:{ intros [= <-]. simpl. rewrite Hr. exact H. }
      unfold unload_at.
      destruct (nth_error (legs r) (j + 1)) as [nl|] eqn:En; [|discriminate].
      destruct (Location_getitem (leg_origin nl)); [|discriminate].
      destruct (Location_eqb _ _); [|discriminate].
      intros [= <-]. simpl. exists r, nl. repeat split; auto.
      eapply nth_error_In; eauto.
    + intros [= <-]. exact I.
Qed.

(** X12: in every state of a cargo whose log replays, the next expected
    activity, when there is one, refers to the cargo and its current route:
    a RECEIVE is expected at the cargo's origin, a LOAD on the voyage of
    some leg of the route, an UNLOAD on the voyage and at the destination of
    some leg of the route, and only RECEIVE and CLAIM come without a voyage
    number. *)
Theorem expectation_refers_to_route (clock : nat -> datetime)
    (o d : Location) (a : datetime) (events : list Event) (c : Cargo) :
  reconstruct clock o d a events = inr c ->
  match next_expected_activity c with
  | None => True
  | Some (Activity2 act l) => (act = RECEIVE /\ l = origin c) \/ act = CLAIM
  | Some (Activity3 act l v) =>
      exists r leg,
        route c = Some r /\ In leg (legs r) /\ leg_voyage_number leg = v
        /\ (act = LOAD \/ (act = UNLOAD /\ leg_destination leg = value l))
  end.
Proof.
  unfold reconstruct. intros R.
  exact (replay_invariant expectation_on_route expectation_on_route_step
           clock events 0%nat (new_booking o d a) c I R).
Qed.

Lemma expectation_refers_to_route_witness :
  exists r leg,
    route (state_after (firstn 3 scenario)) = Some r
    /\ In leg (legs r) /\ leg_voyage_number leg = "V1"
    /\ (UNLOAD = LOAD
        \/ (UNLOAD = UNLOAD /\ leg_destination leg = value NEWYORK)).
Proof.
  apply (expectation_refers_to_route (fun _ => 0) HONGKONG STOCKHOLM
           1209600 (firstn 3 scenario) (state_after (firstn 3 scenario))).
  vm_compute. reflexivity.
Defined.

(** ** Requesting routes *)

Lemma request_possible_routes_cases (repository : N -> option Cargo)
    (tracking_id : N) :
  request_possible_routes_for_cargo repository tracking_id =
  match repository tracking_id with
  | None => inl CargoNotFound
  | Some cargo =>
      match position cargo, destination cargo with
      | HONGKONG, STOCKHOLM => inr [route_HONGKONG_STOCKHOLM]
      | TOKYO, STOCKHOLM => inr [route_TOKYO_STOCKHOLM]
      | _, _ => inl RoutesNotFound
      end
  end.
Proof.
  unfold request_possible_routes_for_cargo, get_cargo, position.
  destruct (repository tracking_id) as [cargo|]; [|reflexivity].
  destruct (last_known_location cargo) as [l|];
    [destruct l | destruct (origin cargo)];
    destruct (destination cargo); reflexivity.
Qed.

(** X13: [request_possible_routes_for_cargo] raises CargoNotFound when the
    repository holds no cargo under the identifier.  Otherwise it looks up
    the pair made of the cargo's last known location, or of its origin when
    it has none, and of its destination: it returns the one registered
    itinerary when that pair is HONGKONG-STOCKHOLM or TOKYO-STOCKHOLM and
    raises RoutesNotFound for every other pair. *)
Theorem request_possible_routes_spec (repository : N -> option Cargo)
    (tracking_id : N) :
  request_possible_routes_for_cargo repository tracking_id =
  match repository tracking_id with
  | None => inl CargoNotFound
  | Some cargo =>
      match
        match last_known_location cargo with
        | Some l => l
        | None => origin cargo
        end, destination cargo
      with
      | HONGKONG, STOCKHOLM => inr [route_HONGKONG_STOCKHOLM]
      | TOKYO, STOCKHOLM => inr [route_TOKYO_STOCKHOLM]
      | _, _ => inl RoutesNotFound
      end
  end.
Proof. apply request_possible_routes_cases. Qed.

Lemma offered_route_hops (repository : N -> option Cargo) (tracking_id : N)
    (cargo : Cargo) (routes : list Itinerary) (r : Itinerary) :
  repository tracking_id = Some cargo ->
  request_possible_routes_for_cargo repository tracking_id = inr routes ->
  In r routes ->
  exists hops,
    legs r = map leg_of hops
    /\ chain (destination cargo) hops
    /\ NoDup (map hop_voyage hops)
    /\ option_map hop_from (hd_error hops) = Some (position cargo)
    /\ itinerary_origin r = value (position cargo)
    /\ itinerary_destination r = value (destination cargo).
Proof.
  intros Hrepo. rewrite request_possible_routes_cases, Hrepo.
  assert (N2 : forall a b : string, a <> b -> NoDup [a; b]).
  { intros a b Hab. constructor; [intros [E|[]]; congruence|].
    constructor; [intros []|constructor]. }
  destruct (position cargo); destruct (destination cargo);
    try discriminate; intros [= <-] [<- | []].
  - exists [mkHop HONGKONG NEWYORK "V1"; mkHop NEWYORK STOCKHOLM "V2"].
    simpl. repeat split; try discriminate. apply N2. discriminate.
  - exists [mkHop TOKYO HAMBURG "V3"; mkHop HAMBURG STOCKHOLM "V4"].
    simpl. repeat split; try discriminate. apply N2. discriminate.
Qed.

(** X14: every itinerary that [request_possible_routes_for_cargo] returns
    for a cargo serves the request: its legs name members of [Location],
    there is at least one, the first starts where the cargo is (its last
    known location, or its origin), each ends where the next starts, the
    last and only the last ends at the cargo's destination, no voyage
    number occurs twice, and the itinerary's own origin and destination are
    those two places. *)
Theorem offered_routes_serve_the_request (repository : N -> option Cargo)
    (tracking_id : N) (cargo : Cargo) (routes : list Itinerary)
    (r : Itinerary) :
  repository tracking_id = Some cargo ->
  request_possible_routes_for_cargo repository tracking_id = inr routes ->
  In r routes ->
  exists hops,
    legs r = map leg_of hops
    /\ chain (destination cargo) hops
    /\ NoDup (map hop_voyage hops)
    /\ option_map hop_from (hd_error hops)
       = Some (match last_known_location cargo with
               | Some l => l
               | None => origin cargo
               end)
    /\ itinerary_origin r
       = value (match last_known_location cargo with
                | Some l => l
                | None => origin cargo
                end)
    /\ itinerary_destination r = value (destination cargo).
Proof. apply offered_route_hops. Qed.

Lemma offered_routes_serve_the_request_witness :
  exists hops,
    legs route_TOKYO_STOCKHOLM = map leg_of hops
    /\ chain STOCKHOLM hops
    /\ NoDup (map hop_voyage hops)
    /\ option_map hop_from (hd_error hops) = Some TOKYO
    /\ itinerary_origin route_TOKYO_STOCKHOLM = value TOKYO
    /\ itinerary_destination route_TOKYO_STOCKHOLM = value STOCKHOLM.
Proof.
  apply (offered_routes_serve_the_request
           (fun _ => Some (state_after (firstn 4 scenario))) 0%N
           (state_after (firstn 4 scenario))
           [route_TOKYO_STOCKHOLM] route_TOKYO_STOCKHOLM).
  - reflexivity.
  - vm_compute. reflexivity.
  - now left.
Defined.

(** ** Journeys along a route *)

Lemma HandlingActivity_eqb_refl (a : HandlingActivity) :
  HandlingActivity_eqb a a = true.
Proof. destruct a; reflexivity. Qed.

Lemma ExpectedActivity_eqb_refl (a : ExpectedActivity) :
  ExpectedActivity_eqb a a = true.
Proof.
  destruct a; simpl;
    now rewrite HandlingActivity_eqb_refl, Location_eqb_refl,
      ?String.eqb_refl.
Qed.

Lemma announced_expectation (c : Cargo) (h : HandlingEvent) :
  next_expected_activity c = Some (expectation_of h) ->
  announced c (HandlingEventRegistered h) = true.
Proof.
  unfold announced. intros ->. apply ExpectedActivity_eqb_refl.
Qed.

(** With voyage numbers that occur once, the LOAD loop finds the hop it is
    asked for. *)
Lemma find_hop (h : HandlingEvent) (hop : Hop) (hops : list Hop) :
  NoDup (map hop_voyage hops) ->
  In hop hops ->
  location h = hop_from hop ->
  voyage_number h = Some (hop_voyage hop) ->
  find (leg_matches h) (map leg_of hops) = Some (leg_of hop).
Proof.
  intros Hnd Hin Hl Hv. induction hops as [|x rest IH]; [contradiction|].
  simpl. inversion Hnd as [|? ? Hx Hrest]; subst.
  destruct (leg_matches h (leg_of x)) eqn:M.
  - apply leg_matches_true in M. destruct M as [_ Mv]. simpl in Mv.
    destruct Hin as [-> | Hin]; [reflexivity|].
    exfalso. apply Hx. rewrite Hv in Mv. injection Mv as Mv.
    rewrite <- Mv. now apply in_map.
  - destruct Hin as [-> | Hin]; [|now apply IH].
    exfalso. assert (T : leg_matches h (leg_of hop) = true).
    { apply leg_matches_true. simpl. rewrite Hl. auto. }
    congruence.
Qed.

(** With voyage numbers that occur once, the UNLOAD loop stops at the hop
    whose voyage it is given. *)
Lemma first_voyage_index_hop (h : HandlingEvent) (hop : Hop)
    (pre rest : list Hop) :
  NoDup (map hop_voyage (pre ++ hop :: rest)) ->
  voyage_number h = Some (hop_voyage hop) ->
  forall i,
    first_voyage_index h i (map leg_of (pre ++ hop :: rest))
    = Some (i + length pre)%nat.
Proof.
  intros Hnd Hv. induction pre as [|x pre IH]; intros i; simpl.
  - unfold voyage_eqb. rewrite Hv, String.eqb_refl. f_equal. lia.
  - simpl in Hnd. inversion Hnd as [|? ? Hx Hrest]; subst.
    unfold voyage_eqb at 1. rewrite Hv.
    destruct (String.eqb (hop_voyage x) (hop_voyage hop)) eqn:E.
    + exfalso. apply String.eqb_eq in E. apply Hx. rewrite E.
      rewrite map_app. apply in_or_app. right. now left.
    + rewrite (IH Hrest). f_equal. lia.
Qed.

(** The LOAD report of a hop of the route. *)
Lemma load_hop (now : datetime) (c : Cargo) (r : Itinerary)
    (hops : list Hop) (hop : Hop) (id : N) :
  route c = Some r ->
  legs r = map leg_of hops ->
  NoDup (map hop_voyage hops) ->
  In hop hops ->
  mutate now
    (HandlingEventRegistered
       (mkHandlingEvent id (Some (hop_voyage hop)) (hop_from hop) LOAD)) c
  = (with_next_expected_activity
       (Some (Activity3 UNLOAD (hop_to hop) (hop_voyage hop)))
       (loaded (mkHandlingEvent id (Some (hop_voyage hop)) (hop_from hop) LOAD)
          c), inr tt).
Proof.
  intros Hr Hl Hnd Hin. rewrite mutate_handling, Hr. simpl.
  rewrite Hl,
    (find_hop (mkHandlingEvent id (Some (hop_voyage hop)) (hop_from hop) LOAD)
       hop hops Hnd Hin eq_refl eq_refl). simpl.
  now rewrite Location_getitem_value.
Qed.

(** The UNLOAD report of a hop that another hop follows. *)
Lemma unload_hop_on_the_way (now : datetime) (c : Cargo) (r : Itinerary)
    (pre rest : list Hop) (hop next : Hop) (id : N) :
  route c = Some r ->
  legs r = map leg_of (pre ++ hop :: next :: rest) ->
  NoDup (map hop_voyage (pre ++ hop :: next :: rest)) ->
  hop_to hop <> destination c ->
  hop_to hop = hop_from next ->
  mutate now
    (HandlingEventRegistered
       (mkHandlingEvent id (Some (hop_voyage hop)) (hop_to hop) UNLOAD)) c
  = (with_next_expected_activity
       (Some (Activity3 LOAD (hop_to hop) (hop_voyage next)))
       (unloaded (mkHandlingEvent id (Some (hop_voyage hop)) (hop_to hop)
                    UNLOAD) c), inr tt).
Proof.
  intros Hr Hl Hnd Hn Hc. rewrite mutate_handling, Hr. simpl.
  apply Location_eqb_neq in Hn. rewrite Hn, Hl.
  assert (Hex : existsb (String.eqb (value (hop_to hop)))
                  (map leg_destination
                     (map leg_of (pre ++ hop :: next :: rest))) = true).
  { apply existsb_exists. exists (value (hop_to hop)). split.
    - rewrite !map_app. apply in_or_app. right. now left.
    - apply String.eqb_refl. }
  rewrite Hex.
  rewrite (first_voyage_index_hop
             (mkHandlingEvent id (Some (hop_voyage hop)) (hop_to hop) UNLOAD)
             hop pre (next :: rest) Hnd eq_refl).
  unfold unload_at. simpl.
  assert (Hnth : nth_error (map leg_of (pre ++ hop :: next :: rest))
                   (length pre + 1) = Some (leg_of next)).
  { rewrite map_app, nth_error_app2; rewrite length_map; [|lia].
    replace (length pre + 1 - length pre)%nat with 1%nat by lia.
    reflexivity. }
  rewrite Hnth. simpl.
  now rewrite <- Hc, Location_getitem_value, Location_eqb_refl.
Qed.

(** The UNLOAD report at the cargo's destination. *)
Lemma unload_at_destination (now : datetime) (c : Cargo) (r : Itinerary)
    (h : HandlingEvent) :
  route c = Some r ->
  handling_activity h = UNLOAD ->
  location h = destination c ->
  mutate now (HandlingEventRegistered h) c
  = (with_next_expected_activity (Some (Activity2 CLAIM (location h)))
       (unloaded h c), inr tt).
Proof.
  intros Hr Ha Hl. rewrite mutate_handling, Hr, Ha, Hl.
  now rewrite Location_eqb_refl.
Qed.

Lemma replay_where_cons (guard : Cargo -> Event -> bool)
    (clock : nat -> datetime) (k : nat) (e : Event) (rest : list Event)
    (c c1 : Cargo) :
  guard c e = true ->
  mutate (clock k) e c = (c1, inr tt) ->
  replay_where guard clock k (e :: rest) c
  = replay_where guard clock (S k) rest c1.
Proof. intros G M. simpl. now rewrite G, M. Qed.

Lemma replay_cons (clock : nat -> datetime) (k : nat) (e : Event)
    (rest : list Event) (c c1 : Cargo) :
  mutate (clock k) e c = (c1, inr tt) ->
  replay clock k (e :: rest) c = replay clock (S k) rest c1.
Proof. intros M. simpl. now rewrite M. Qed.

Lemma journey_cons (hop : Hop) (rest : list Hop) (dest : Location) :
  journey (hop :: rest) dest
  = handling (Some (hop_voyage hop)) (hop_from hop) LOAD
    :: handling (Some (hop_voyage hop)) (hop_to hop) UNLOAD
    :: journey rest dest.
Proof. reflexivity. Qed.

(** From a cargo on board the voyage of a hop to the claim: every report is
    the one the cargo expects and every mutation succeeds. *)
Lemma journey_after_load (clock : nat -> datetime) (r : Itinerary) :
  forall (rest : list Hop) (hop : Hop) (pre : list Hop) (c : Cargo)
         (k : nat),
    route c = Some r ->
    legs r = map leg_of (pre ++ hop :: rest) ->
    NoDup (map hop_voyage (pre ++ hop :: rest)) ->
    chain (destination c) (hop :: rest) ->
    next_expected_activity c
    = Some (Activity3 UNLOAD (hop_to hop) (hop_voyage hop)) ->
    replay_where announced clock k
      (handling (Some (hop_voyage hop)) (hop_to hop) UNLOAD
       :: journey rest (destination c)) c
    = Some (delivered c).
Proof.
  induction rest as [|next rest IH]; intros hop pre c k Hr Hl Hnd Hch Hx.
  - simpl in Hch.
    rewrite (replay_where_cons _ _ _ _ _ _
               (with_next_expected_activity
                  (Some (Activity2 CLAIM (hop_to hop)))
                  (unloaded (mkHandlingEvent 0 (Some (hop_voyage hop))
                               (hop_to hop) UNLOAD) c))).
    + unfold journey. simpl flat_map. simpl app.
      rewrite (replay_where_cons _ _ _ _ _ _ (delivered c)).
      * reflexivity.
      * apply announced_expectation. simpl. now rewrite Hch.
      * unfold handling. rewrite mutate_handling. simpl. rewrite Hr.
        unfold delivered. simpl. now rewrite Hch.
    + now apply announced_expectation.
    + unfold handling. now apply (unload_at_destination _ _ r).
  - simpl in Hch. destruct Hch as (Hn & Hc & Hch).
    rewrite (replay_where_cons _ _ _ _ _ _
               (with_next_expected_activity
                  (Some (Activity3 LOAD (hop_to hop) (hop_voyage next)))
                  (unloaded (mkHandlingEvent 0 (Some (hop_voyage hop))
                               (hop_to hop) UNLOAD) c))).
    + rewrite journey_cons.
      rewrite (replay_where_cons _ _ _ _ _ _
                 (with_next_expected_activity
                    (Some (Activity3 UNLOAD (hop_to next) (hop_voyage next)))
                    (loaded (mkHandlingEvent 0 (Some (hop_voyage next))
                               (hop_from next) LOAD)
                       (with_next_expected_activity
                          (Some (Activity3 LOAD (hop_to hop)
                                   (hop_voyage next)))
                          (unloaded (mkHandlingEvent 0
                                       (Some (hop_voyage hop))
                                       (hop_to hop) UNLOAD) c))))).
      * assert (Hl' : legs r = map leg_of ((pre ++ [hop]) ++ next :: rest))
          by now rewrite <- app_assoc.
        assert (Hnd' : NoDup (map hop_voyage ((pre ++ [hop]) ++ next :: rest)))
          by now rewrite <- app_assoc.
        exact (IH next (pre ++ [hop])
                 (with_next_expected_activity
                    (Some (Activity3 UNLOAD (hop_to next) (hop_voyage next)))
                    (loaded (mkHandlingEvent 0 (Some (hop_voyage next))
                               (hop_from next) LOAD)
                       (with_next_expected_activity
                          (Some (Activity3 LOAD (hop_to hop)
                                   (hop_voyage next)))
                          (unloaded (mkHandlingEvent 0
                                       (Some (hop_voyage hop))
                                       (hop_to hop) UNLOAD) c))))
                 (S (S k)) Hr Hl' Hnd' Hch eq_refl).
      * apply announced_expectation. simpl. now rewrite Hc.
      * unfold handling.
        apply (load_hop _ _ r (pre ++ hop :: next :: rest)); auto.
        apply in_or_app. right. right. now left.
    + now apply announced_expectation.
    + unfold handling.
      now apply (unload_hop_on_the_way _ _ r pre rest).
Qed.

(** The reports of a journey along the route, applied to a cargo that has
    this route, all succeed and deliver the cargo. *)
Lemma journey_replays (clock : nat -> datetime) (k : nat) (c : Cargo)
    (r : Itinerary) (hops : list Hop) :
  route c = Some r ->
  legs r = map leg_of hops ->
  NoDup (map hop_voyage hops) ->
  chain (destination c) hops ->
  replay clock k (journey hops (destination c)) c = inr (delivered c).
Proof.
  intros Hr Hl Hnd Hch. destruct hops as [|hop rest]; [contradiction|].
  rewrite journey_cons.
  rewrite (replay_cons clock k _ _ c _
             (load_hop _ _ r (hop :: rest) hop 0 Hr Hl Hnd
                (or_introl eq_refl))).
  apply (replay_where_replay announced).
  exact (journey_after_load clock r rest hop []
           (with_next_expected_activity
              (Some (Activity3 UNLOAD (hop_to hop) (hop_voyage hop)))
              (loaded (mkHandlingEvent 0 (Some (hop_voyage hop))
                         (hop_from hop) LOAD) c))
           (S k) Hr Hl Hnd Hch eq_refl).
Qed.

(** The same journey, preceded by a RECEIVE report at the origin, for a
    cargo that expects this RECEIVE and whose route starts at its origin:
    every report is the one the cargo expects. *)
Lemma journey_is_announced (clock : nat -> datetime) (k : nat) (c : Cargo)
    (r : Itinerary) (hops : list Hop) :
  route c = Some r ->
  legs r = map leg_of hops ->
  NoDup (map hop_voyage hops) ->
  chain (destination c) hops ->
  option_map hop_from (hd_error hops) = Some (origin c) ->
  next_expected_activity c = Some (Activity2 RECEIVE (origin c)) ->
  replay_where announced clock k
    (handling None (origin c) RECEIVE :: journey hops (destination c)) c
  = Some (delivered c).
Proof.
  intros Hr Hl Hnd Hch Hfrom Hx.
  destruct hops as [|hop rest]; [contradiction|].
  simpl in Hfrom. injection Hfrom as Hfrom.
  rewrite (replay_where_cons _ _ _ _ _ _
             (with_next_expected_activity
                (Some (Activity3 LOAD (origin c) (hop_voyage hop)))
                (received (mkHandlingEvent 0 None (origin c) RECEIVE) c))).
  - rewrite journey_cons.
    rewrite (replay_where_cons _ _ _ _ _ _
               (with_next_expected_activity
                  (Some (Activity3 UNLOAD (hop_to hop) (hop_voyage hop)))
                  (loaded (mkHandlingEvent 0 (Some (hop_voyage hop))
                             (hop_from hop) LOAD)
                     (with_next_expected_activity
                        (Some (Activity3 LOAD (origin c) (hop_voyage hop)))
                        (received (mkHandlingEvent 0 None (origin c) RECEIVE)
                           c))))).
    + exact (journey_after_load clock r rest hop []
               (with_next_expected_activity
                  (Some (Activity3 UNLOAD (hop_to hop) (hop_voyage hop)))
                  (loaded (mkHandlingEvent 0 (Some (hop_voyage hop))
                             (hop_from hop) LOAD)
                     (with_next_expected_activity
                        (Some (Activity3 LOAD (origin c) (hop_voyage hop)))
                        (received (mkHandlingEvent 0 None (origin c) RECEIVE)
                           c))))
               (S (S k)) Hr Hl Hnd Hch eq_refl).
    + apply announced_expectation. simpl. now rewrite Hfrom.
    + unfold handling.
      apply (load_hop _ _ r (hop :: rest)); auto. now left.
  - now apply announced_expectation.
  - unfold handling. rewrite mutate_handling, Hr. simpl. now rewrite Hl.
Qed.

(** X15: a cargo whose route is a chain of hops to its destination, with
    voyage numbers that occur once, can be carried along it from any state:
    the LOAD and UNLOAD reports of the hops in order, followed by CLAIM at
    the destination, all succeed, and the cargo ends CLAIMED at its
    destination with no current voyage and no next expected activity,
    every other attribute as before. *)
Theorem journey_reaches_claim (clock : nat -> datetime) (k : nat)
    (c : Cargo) (r : Itinerary) (hops : list Hop) :
  route c = Some r ->
  legs r = map leg_of hops ->
  NoDup (map hop_voyage hops) ->
  chain (destination c) hops ->
  replay clock k (journey hops (destination c)) c
  = inr {| origin := origin c;
           destination := destination c;
           arrival_deadline := arrival_deadline c;
           transport_status := "CLAIMED";
           routing_status := routing_status c;
           is_misdirected := is_misdirected c;
           estimated_time_of_arrival := estimated_time_of_arrival c;
           next_expected_activity := None;
           route := route c;
           last_known_location := Some (destination c);
           current_voyage_number := None |}.
Proof. apply journey_replays. Qed.

Lemma journey_reaches_claim_witness :
  replay (fun _ => 0) 5 (skipn 5 scenario) (state_after (firstn 5 scenario))
  = inr (delivered (state_after (firstn 5 scenario))).
Proof.
  apply (journey_reaches_claim (fun _ => 0) 5
           (state_after (firstn 5 scenario)) route_TOKYO_STOCKHOLM
           [mkHop TOKYO HAMBURG "V3"; mkHop HAMBURG STOCKHOLM "V4"]).
  - vm_compute. reflexivity.
  - reflexivity.
  - constructor; [intros [E|[]]; discriminate|].
    constructor; [intros []|constructor].
  - vm_compute. repeat split; discriminate.
Defined.

(** X16: a cargo that expects RECEIVE at its origin and whose route is a
    chain of hops from its origin to its destination, with voyage numbers
    that occur once, is handled exactly as it expects: RECEIVE at the
    origin, LOAD and UNLOAD for each hop in order, CLAIM at the
    destination.  Each of these reports is the next expected activity of
    the state it is applied to, each mutation succeeds, and the cargo ends
    CLAIMED at its destination. *)
Theorem announced_journey (clock : nat -> datetime) (k : nat) (c : Cargo)
    (r : Itinerary) (hops : list Hop) :
  route c = Some r ->
  legs r = map leg_of hops ->
  NoDup (map hop_voyage hops) ->
  chain (destination c) hops ->
  option_map hop_from (hd_error hops) = Some (origin c) ->
  next_expected_activity c = Some (Activity2 RECEIVE (origin c)) ->
  replay_where announced clock k
    (handling None (origin c) RECEIVE :: journey hops (destination c)) c
  = Some {| origin := origin c;
            destination := destination c;
            arrival_deadline := arrival_deadline c;
            transport_status := "CLAIMED";
            routing_status := routing_status c;
            is_misdirected := is_misdirected c;
            estimated_time_of_arrival := estimated_time_of_arrival c;
            next_expected_activity := None;
            route := route c;
            last_known_location := Some (destination c);
            current_voyage_number := None |}.
Proof. apply journey_is_announced. Qed.

Lemma announced_journey_witness :
  replay_where announced (fun _ => 0) 1
    [ handling None HONGKONG RECEIVE;
      handling (Some "V1") HONGKONG LOAD;
      handling (Some "V1") NEWYORK UNLOAD;
      handling (Some "V2") NEWYORK LOAD;
      handling (Some "V2") STOCKHOLM UNLOAD;
      handling None STOCKHOLM CLAIM ] routed
  = Some (delivered routed).
Proof.
  apply (announced_journey (fun _ => 0) 1 routed route_HONGKONG_STOCKHOLM
           [mkHop HONGKONG NEWYORK "V1"; mkHop NEWYORK STOCKHOLM "V2"]).
  - reflexivity.
  - reflexivity.
  - constructor; [intros [E|[]]; discriminate|].
    constructor; [intros []|constructor].
  - vm_compute. repeat split; discriminate.
  - reflexivity.
  - reflexivity.
Defined.

(** X17: requesting, assigning, handling.  Whatever itinerary
    [request_possible_routes_for_cargo] returns for a cargo, once it is
    assigned to that cargo the reports of the journey along its legs (LOAD
    and UNLOAD for each leg in order, then CLAIM at the destination) all
    succeed and leave the cargo CLAIMED at its destination and not
    misdirected; and when the cargo has not been handled before, the same
    journey preceded by RECEIVE at the origin consists of expected reports
    only. *)
Theorem offered_route_can_be_followed (repository : N -> option Cargo)
    (tracking_id : N) (cargo : Cargo) (routes : list Itinerary)
    (r : Itinerary) (now : datetime) (clock : nat -> datetime) (k : nat) :
  repository tracking_id = Some cargo ->
  request_possible_routes_for_cargo repository tracking_id = inr routes ->
  In r routes ->
  exists hops c',
    legs r = map leg_of hops
    /\ replay clock k (journey hops (destination cargo))
         (fst (mutate now (RouteAssigned r) cargo)) = inr c'
    /\ transport_status c' = "CLAIMED"
    /\ last_known_location c' = Some (destination cargo)
    /\ current_voyage_number c' = None
    /\ next_expected_activity c' = None
    /\ is_misdirected c' = false
    /\ (last_known_location cargo = None ->
        replay_where announced clock k
          (handling None (origin cargo) RECEIVE
           :: journey hops (destination cargo))
          (fst (mutate now (RouteAssigned r) cargo)) = Some c').
Proof.
  intros Hrepo Hreq Hin.
  destruct (offered_route_hops _ _ _ _ _ Hrepo Hreq Hin)
    as (hops & Hl & Hch & Hnd & Hfrom & _ & _).
  exists hops, (delivered (fst (mutate now (RouteAssigned r) cargo))).
  split; [exact Hl|]. split.
  - exact (journey_replays clock k (fst (mutate now (RouteAssigned r) cargo))
             r hops eq_refl Hl Hnd Hch).
  - repeat split. intros Hnone.
    apply (journey_is_announced clock k
             (fst (mutate now (RouteAssigned r) cargo)) r hops);
      auto.
    unfold position in Hfrom. now rewrite Hnone in Hfrom.
Qed.

Lemma offered_route_can_be_followed_witness :
  exists hops c',
    legs route_HONGKONG_STOCKHOLM = map leg_of hops
    /\ replay (fun _ => 0) 1 (journey hops STOCKHOLM)
         (fst (mutate 0 (RouteAssigned route_HONGKONG_STOCKHOLM) booked))
       = inr c'
    /\ transport_status c' = "CLAIMED"
    /\ last_known_location c' = Some STOCKHOLM
    /\ current_voyage_number c' = None
    /\ next_expected_activity c' = None
    /\ is_misdirected c' = false
    /\ (last_known_location booked = None ->
        replay_where announced (fun _ => 0) 1
          (handling None HONGKONG RECEIVE :: journey hops STOCKHOLM)
          (fst (mutate 0 (RouteAssigned route_HONGKONG_STOCKHOLM) booked))
        = Some c').
Proof.
  apply (offered_route_can_be_followed (fun _ => Some booked) 0%N booked
           [route_HONGKONG_STOCKHOLM] route_HONGKONG_STOCKHOLM 0
           (fun _ => 0) 1).
  - reflexivity.
  - reflexivity.
  - now left.
Defined.

Lemma unload_at_port_of_call_witness :
  exists next,
    nth_error (legs route_HONGKONG_STOCKHOLM) 1 = Some next
    /\ leg_origin next = "NEWYORK"
    /\ mutate 0 (handling (Some "V1") NEWYORK UNLOAD)
         (state_after (firstn 3 scenario))
       = (with_next_expected_activity
            (Some (Activity3 LOAD NEWYORK (leg_voyage_number next)))
            (unloaded (mkHandlingEvent 0 (Some "V1") NEWYORK UNLOAD)
               (state_after (firstn 3 scenario))), inr tt).
Proof.
  apply (unload_at_port_of_call 0 (state_after (firstn 3 scenario))
           route_HONGKONG_STOCKHOLM
           (mkHandlingEvent 0 (Some "V1") NEWYORK UNLOAD) 0
           (mkLeg "HONGKONG" "NEWYORK" "V1")).
  - vm_compute. reflexivity.
  - reflexivity.
  - vm_compute. discriminate.
  - intros i a b Ha Hb. unfold route_HONGKONG_STOCKHOLM in Ha, Hb.
    destruct i as [|[|i]]; simpl in Ha, Hb.
    + injection Ha as <-. injection Hb as <-. reflexivity.
    + discriminate Hb.
    + destruct i; discriminate Ha.
  - intros leg Hleg. unfold route_HONGKONG_STOCKHOLM in Hleg.
    simpl in Hleg. injection Hleg as <-. reflexivity.
  - reflexivity.
  - reflexivity.
  - reflexivity.
Defined.

Lemma load_unknown_destination_witness :
  mutate 0 (handling (Some "V7") HONGKONG LOAD)
    (fst (mutate 0 (RouteAssigned
                      (mkItinerary "HONGKONG" "ATLANTIS"
                         [mkLeg "HONGKONG" "ATLANTIS" "V7"])) booked))
  = (loaded (mkHandlingEvent 0 (Some "V7") HONGKONG LOAD)
       (fst (mutate 0 (RouteAssigned
                         (mkItinerary "HONGKONG" "ATLANTIS"
                            [mkLeg "HONGKONG" "ATLANTIS" "V7"])) booked)),
     inl KeyError).
Proof.
  apply (load_unknown_destination 0 _
           (mkItinerary "HONGKONG" "ATLANTIS"
              [mkLeg "HONGKONG" "ATLANTIS" "V7"])
           (mkHandlingEvent 0 (Some "V7") HONGKONG LOAD)
           (mkLeg "HONGKONG" "ATLANTIS" "V7")).
  - reflexivity.
  - reflexivity.
  - exists [], []. split; [reflexivity|]. split; [split; reflexivity|].
    intros y [].
  - reflexivity.
Defined.
